(** * glue.core.subset_group: grouped subsets kept in sync by a SubsetGroup

    A shallow embedding of [glue/core/subset_group.py].  Python objects live
    in a store and are named by references (their identity); every method is
    a computation over that store.  Calls that leave the module
    ([Subset.broadcast], [Data.add_subset], [Hub.subscribe]) are recorded,
    in order, in a trace. *)

From stdpp Require Import base option list sets strings.

Set Default Proof Using "Type".

(** ** Objects *)

(** A reference is the identity of an object: Python's [is] compares
    references. *)
Abbreviation Ref := nat.

(** The selection criteria held by a [SubsetState] object.  The module never
    looks inside them. *)
Definition Criteria : Type := string.

(** [class GroupedSubset(Subset)]: the instance attributes [data] (bound by
    the base class), [group] and [_style_override].  [subset_state] and
    [label] are class-level [Pointer]s, not instance attributes. *)
Record GroupedSubset : Type := mkGroupedSubset {
  data : Ref;
  group : Ref;
  _style_override : option Ref
}.

(** [class SubsetGroup(HubListener)]: the attributes set by [__init__]. *)
Record SubsetGroup : Type := mkSubsetGroup {
  subsets : list Ref;
  subset_state : Ref;
  label : option string;
  _style : option Ref
}.

(** Modelled from the spec: [VisualAttributes] (glue.core.visual) is not part
    of this module.  Of a style object the model keeps its identity and the
    [parent] it was created with, which is the object a change of one of its
    attributes is reported to. *)
Record VisualAttributes : Type := mkVisualAttributes {
  parent : option Ref
}.

(** The argument of [broadcast]: an attribute name, or a style object. *)
Inductive Item : Type :=
| ItemAttr (attr : string)
| ItemStyle (style : Ref).

Inductive MessageKind : Type :=
| DataCollectionAddMessage
| DataCollectionDeleteMessage.

(** Calls to collaborators outside the module. *)
Inductive Event : Type :=
| SubsetBroadcast (s : Ref) (item : Item)
| DataAddSubset (d : Ref) (s : Ref)
| HubSubscribe (hub : Ref) (listener : Ref) (kind : MessageKind).

#[global] Instance Item_eq_dec : EqDecision Item.
Proof. solve_decision. Defined.
#[global] Instance MessageKind_eq_dec : EqDecision MessageKind.
Proof. solve_decision. Defined.
#[global] Instance Event_eq_dec : EqDecision Event.
Proof. solve_decision. Defined.
#[global] Instance GroupedSubset_eq_dec : EqDecision GroupedSubset.
Proof. solve_decision. Defined.
#[global] Instance SubsetGroup_eq_dec : EqDecision SubsetGroup.
Proof. solve_decision. Defined.

(** ** The store *)

(** One heap per class, indexed by reference; an object is allocated at the
    end of its heap and is never freed. *)
Record World : Type := mkWorld {
  groups : list SubsetGroup;
  members : list GroupedSubset;
  states : list Criteria;
  styles : list VisualAttributes;
  trace : list Event
}.

Definition empty_world : World := mkWorld [] [] [] [] [].

Definition with_groups (f : list SubsetGroup → list SubsetGroup) (w : World) : World :=
  mkWorld (f (groups w)) (members w) (states w) (styles w) (trace w).
Definition with_members (f : list GroupedSubset → list GroupedSubset) (w : World) : World :=
  mkWorld (groups w) (f (members w)) (states w) (styles w) (trace w).
Definition with_states (f : list Criteria → list Criteria) (w : World) : World :=
  mkWorld (groups w) (members w) (f (states w)) (styles w) (trace w).
Definition with_styles (f : list VisualAttributes → list VisualAttributes) (w : World) : World :=
  mkWorld (groups w) (members w) (states w) (f (styles w)) (trace w).
Definition with_trace (f : list Event → list Event) (w : World) : World :=
  mkWorld (groups w) (members w) (states w) (styles w) (f (trace w)).

(** ** Computations: state passing with failure

    [None] stands for a Python exception (an [AttributeError] on [None], a
    [ValueError] from [list.remove]) or for a reference that names no
    object. *)
Definition M (A : Type) : Type := World → option (A * World).

Definition ret {A} (a : A) : M A := λ w, Some (a, w).
Definition raise {A} : M A := λ _, None.
Definition bind {A B} (m : M A) (k : A → M B) : M B :=
  λ w, match m w with
       | Some (a, w') => k a w'
       | None => None
       end.

Notation "'do' x <- m ; k" := (bind m (λ x, k))
  (at level 10, x name, m at level 100, k at level 200).
Notation "'do_' m ; k" := (bind m (λ _, k))
  (at level 10, m at level 100, k at level 200).

(** [for x in l: body(x)] *)
Fixpoint for_each {A} (l : list A) (body : A → M unit) : M unit :=
  match l with
  | [] => ret tt
  | x :: l' => do_ body x; for_each l' body
  end.

Definition lift {A} (o : option A) : M A :=
  λ w, match o with Some a => Some (a, w) | None => None end.

Definition get_group (g : Ref) : M SubsetGroup := λ w, lift (groups w !! g) w.
Definition get_member (s : Ref) : M GroupedSubset := λ w, lift (members w !! s) w.
Definition get_state (r : Ref) : M Criteria := λ w, lift (states w !! r) w.
Definition get_style_object (v : Ref) : M VisualAttributes := λ w, lift (styles w !! v) w.

Definition put_group (g : Ref) (G : SubsetGroup) : M unit :=
  λ w, Some (tt, with_groups (λ h, <[g := G]> h) w).
Definition put_member (s : Ref) (m : GroupedSubset) : M unit :=
  λ w, Some (tt, with_members (λ h, <[s := m]> h) w).
Definition put_state (r : Ref) (c : Criteria) : M unit :=
  λ w, Some (tt, with_states (λ h, <[r := c]> h) w).

Definition new_group (G : SubsetGroup) : M Ref :=
  λ w, Some (length (groups w), with_groups (λ h, h ++ [G]) w).
Definition new_member (m : GroupedSubset) : M Ref :=
  λ w, Some (length (members w), with_members (λ h, h ++ [m]) w).
Definition new_state (c : Criteria) : M Ref :=
  λ w, Some (length (states w), with_states (λ h, h ++ [c]) w).
Definition new_style (v : VisualAttributes) : M Ref :=
  λ w, Some (length (styles w), with_styles (λ h, h ++ [v]) w).

Definition emit (e : Event) : M unit :=
  λ w, Some (tt, with_trace (λ t, t ++ [e]) w).

(** ** Collaborators *)

(** Modelled from the spec: [Subset.broadcast] (the base class is not part
    of this module) notifies the listeners of the subset; the call is
    recorded. *)
Definition Subset_broadcast (s : Ref) (item : Item) : M unit :=
  emit (SubsetBroadcast s item).

(** Modelled from the spec: [Data.add_subset] (the per-dataset container's
    add-member operation) attaches a member to the dataset; the call is
    recorded. *)
Definition Data_add_subset (d : Ref) (s : Ref) : M unit :=
  emit (DataAddSubset d s).

(** What an [add_subset] call notifies, given the dataset and the member it
    is called with and the groups and the members it finds. *)
Definition Observer : Type :=
  Ref → Ref → list SubsetGroup → list GroupedSubset → list Event.

(** Modelled from the spec: [Data.add_subset] when attaching a member
    notifies listeners, directly or through a broadcast it triggers: the call
    is recorded, followed by what is notified.  Like [Data_add_subset] it
    leaves the groups and the members as they are. *)
Definition Data_add_subset_observing (notified : Observer) (d : Ref) (s : Ref) : M unit :=
  λ w, Some (tt, with_trace
                   (λ t, t ++ DataAddSubset d s :: notified d s (groups w) (members w))
                   w).

(** Modelled from the spec: [Hub.subscribe] registers one handler of the
    listener for one kind of message; the call is recorded. *)
Definition Hub_subscribe (hub : Ref) (listener : Ref) (kind : MessageKind) : M unit :=
  emit (HubSubscribe hub listener kind).

(** Modelled from the spec: [SubsetState()] makes a fresh state object, here
    with empty criteria. *)
Definition SubsetState_new : M Ref := new_state "".

(** Modelled from the spec: [SubsetState.copy] is a deep copy, a fresh state
    object holding the same criteria. *)
Definition SubsetState_copy (r : Ref) : M Ref :=
  do c <- get_state r;
  new_state c.

(** ** GroupedSubset *)

(** [GroupedSubset.__init__(self, data, group)].  The arguments of the base
    constructor read [group.label], [group.style.color] and
    [group.style.alpha]: a group whose style is [None] raises.
    Modelled from the spec: the base constructor [Subset.__init__] (not part
    of this module) binds the new member to [data]. *)
Definition GroupedSubset__init__ (d : Ref) (g : Ref) : M Ref :=
  do G <- get_group g;
  match _style G with
  | None => raise
  | Some _ => new_member (mkGroupedSubset d g None)
  end.

(** [GroupedSubset.style] (getter): [self._style_override or self.group.style].
    The override is [None] or a style object, and an object is truthy: [or]
    gives the override when there is one and reads the group otherwise. *)
Definition GroupedSubset_style (s : Ref) : M (option Ref) :=
  do m <- get_member s;
  match _style_override m with
  | Some o => ret (Some o)
  | None =>
      do G <- get_group (group m);
      ret (_style G)
  end.

(** [GroupedSubset.style] (setter) *)
Definition GroupedSubset_set_style (s : Ref) (value : Ref) : M unit :=
  do m <- get_member s;
  put_member s (mkGroupedSubset (data m) (group m) (Some value)).

(** [GroupedSubset.clear_override_style] *)
Definition GroupedSubset_clear_override_style (s : Ref) : M unit :=
  do m <- get_member s;
  match _style_override m with
  | Some _ =>
      do_ put_member s (mkGroupedSubset (data m) (group m) None);
      Subset_broadcast s (ItemAttr "style")
  | None => ret tt
  end.

(** [GroupedSubset.__eq__(self, other)]: [other is self] *)
Definition GroupedSubset__eq__ (self other : Ref) : bool :=
  bool_decide (other = self).

(** Modelled from the spec: [Pointer] (glue.core.util) is not part of this
    module.  [subset_state = Pointer('group.subset_state')] and
    [label = Pointer('group.label')] forward a read of the member's attribute
    to the attribute of [self.group]. *)
Definition Pointer__get__ {A} (field : SubsetGroup → A) (s : Ref) : M A :=
  do m <- get_member s;
  do G <- get_group (group m);
  ret (field G).

Definition GroupedSubset_subset_state : Ref → M Ref := Pointer__get__ subset_state.
Definition GroupedSubset_label : Ref → M (option string) := Pointer__get__ label.

(** ** SubsetGroup *)

(** An assignment [self.<attr> = value] to a SubsetGroup. *)
Inductive Assign : Type :=
| Set_subsets (value : list Ref)
| Set_subset_state (value : Ref)
| Set_label (value : option string)
| Set_style (value : Ref)
| Set__style (value : option Ref).

Definition attr (a : Assign) : string :=
  match a with
  | Set_subsets _ => "subsets"
  | Set_subset_state _ => "subset_state"
  | Set_label _ => "label"
  | Set_style _ => "style"
  | Set__style _ => "_style"
  end.

(** [SubsetGroup._clear_overrides] *)
Definition SubsetGroup__clear_overrides (g : Ref) : M unit :=
  do G <- get_group g;
  for_each (subsets G) GroupedSubset_clear_override_style.

(** [SubsetGroup.broadcast] *)
Definition SubsetGroup_broadcast (g : Ref) (item : Item) : M unit :=
  match item with
  | ItemStyle _ => SubsetGroup__clear_overrides g
  | ItemAttr _ =>
      do G <- get_group g;
      for_each (subsets G) (λ s, Subset_broadcast s item)
  end.

(** [object.__setattr__(self, attr, value)] on a SubsetGroup.  [style] is a
    property of the class, so the assignment runs its setter:
    [self._style = value; self._clear_overrides()] (the inner assignment to
    [_style] is a plain store, its name is not one that is broadcast). *)
Definition object__setattr__ (g : Ref) (a : Assign) : M unit :=
  do G <- get_group g;
  match a with
  | Set_subsets v => put_group g (mkSubsetGroup v (subset_state G) (label G) (_style G))
  | Set_subset_state v => put_group g (mkSubsetGroup (subsets G) v (label G) (_style G))
  | Set_label v => put_group g (mkSubsetGroup (subsets G) (subset_state G) v (_style G))
  | Set__style v => put_group g (mkSubsetGroup (subsets G) (subset_state G) (label G) v)
  | Set_style v =>
      do_ put_group g (mkSubsetGroup (subsets G) (subset_state G) (label G) (Some v));
      SubsetGroup__clear_overrides g
  end.

(** [SubsetGroup.__setattr__] *)
Definition SubsetGroup__setattr__ (g : Ref) (a : Assign) : M unit :=
  do_ object__setattr__ g a;
  if bool_decide (attr a ∈ ["subset_state"; "label"; "style"])
  then SubsetGroup_broadcast g (ItemAttr (attr a))
  else ret tt.

(** [Pointer.__set__]: a write of the member's attribute is an assignment to
    the attribute of [self.group] (see [Pointer__get__]). *)
Definition Pointer__set__ (a : Assign) (s : Ref) : M unit :=
  do m <- get_member s;
  SubsetGroup__setattr__ (group m) a.

Definition GroupedSubset_set_subset_state (s : Ref) (value : Ref) : M unit :=
  Pointer__set__ (Set_subset_state value) s.
Definition GroupedSubset_set_label (s : Ref) (value : option string) : M unit :=
  Pointer__set__ (Set_label value) s.

(** Modelled from the spec: [VisualAttributes.__setattr__] (not part of this
    module) reports a change of a style object to its parent by
    [parent.broadcast(self)]; the attribute values themselves are outside
    the model. *)
Definition VisualAttributes__setattr__ (v : Ref) : M unit :=
  do V <- get_style_object v;
  match parent V with
  | Some g => SubsetGroup_broadcast g (ItemStyle v)
  | None => ret tt
  end.

(** [SubsetGroup.__init__(self, color, alpha, label)].  The first four
    assignments create the object; [subsets] is empty while [subset_state]
    and [label] are broadcast.  [color] and [alpha] end up in attributes of
    the style object, which the model does not hold: of the three
    assignments to them it keeps the report to the parent. *)
Definition SubsetGroup__init__ (lbl : option string) : M Ref :=
  do st <- SubsetState_new;
  do g <- new_group (mkSubsetGroup [] st lbl None);
  do v <- new_style (mkVisualAttributes (Some g));
  do_ SubsetGroup__setattr__ g (Set_style v);
  do_ VisualAttributes__setattr__ v;
  do_ VisualAttributes__setattr__ v;
  do_ VisualAttributes__setattr__ v;
  ret g.

(** [self.subsets.append(s)] *)
Definition subsets_append (g : Ref) (s : Ref) : M unit :=
  do G <- get_group g;
  put_group g (mkSubsetGroup (subsets G ++ [s]) (subset_state G) (label G) (_style G)).

(** [list.remove(value)]: drops the first element equal to [value], by the
    elements' [__eq__]; [None] is the [ValueError] when there is none. *)
Fixpoint list_remove (value : Ref) (l : list Ref) : option (list Ref) :=
  match l with
  | [] => None
  | x :: l' =>
      if GroupedSubset__eq__ x value then Some l'
      else cons x <$> list_remove value l'
  end.

(** [self.subsets.remove(s)] *)
Definition subsets_remove (g : Ref) (s : Ref) : M unit :=
  do G <- get_group g;
  do l <- lift (list_remove s (subsets G));
  put_group g (mkSubsetGroup l (subset_state G) (label G) (_style G)).

(** A [DataCollection] as [register] uses it: its [hub], and the datasets it
    iterates over. *)
Record DataCollection : Type := mkDataCollection {
  hub : Ref;
  datasets : list Ref
}.

(** [SubsetGroup.register_to_hub] *)
Definition SubsetGroup_register_to_hub (g : Ref) (h : Ref) : M unit :=
  do_ Hub_subscribe h g DataCollectionAddMessage;
  Hub_subscribe h g DataCollectionDeleteMessage.

(** The first loop of [register]: one new member per dataset, appended. *)
Definition register_populate (g : Ref) (ds : list Ref) : M unit :=
  for_each ds (λ d,
    do s <- GroupedSubset__init__ d g;
    subsets_append g s).

(** The second loop of [register], over [zip(data, self.subsets)]. *)
Definition register_attach (pairs : list (Ref * Ref)) : M unit :=
  for_each pairs (λ p, Data_add_subset p.1 p.2).

(** [SubsetGroup.register] *)
Definition SubsetGroup_register (g : Ref) (dc : DataCollection) : M unit :=
  do_ SubsetGroup_register_to_hub g (hub dc);
  do_ register_populate g (datasets dc);
  do G <- get_group g;
  register_attach (zip (datasets dc) (subsets G)).

(** [SubsetGroup.register] when the [add_subset] of the datasets notifies
    [notified]. *)
Definition SubsetGroup_register_observing (notified : Observer) (g : Ref) (dc : DataCollection) : M unit :=
  do_ SubsetGroup_register_to_hub g (hub dc);
  do_ register_populate g (datasets dc);
  do G <- get_group g;
  for_each (zip (datasets dc) (subsets G))
           (λ p, Data_add_subset_observing notified p.1 p.2).

(** [SubsetGroup.paste]; [other_subset] is a grouped subset, whose
    [subset_state] is read through its [Pointer]. *)
Definition SubsetGroup_paste (g : Ref) (other_subset : Ref) : M unit :=
  do r <- GroupedSubset_subset_state other_subset;
  do state <- SubsetState_copy r;
  SubsetGroup__setattr__ g (Set_subset_state state).

(** [SubsetGroup._add_data] *)
Definition SubsetGroup__add_data (g : Ref) (d : Ref) : M unit :=
  do s <- GroupedSubset__init__ d g;
  do_ Data_add_subset d s;
  subsets_append g s.

(** [SubsetGroup._remove_data]; the loop runs over a copy of the list. *)
Definition SubsetGroup__remove_data (g : Ref) (d : Ref) : M unit :=
  do G <- get_group g;
  for_each (subsets G) (λ s,
    do m <- get_member s;
    if bool_decide (data m = d) then subsets_remove g s else ret tt).

(** A message of the hub and the handler [register_to_hub] subscribes for
    its kind: [lambda x: self._add_data(x.data)] and
    [lambda x: self._remove_data(x.data)]. *)
Record Message : Type := mkMessage {
  kind : MessageKind;
  message_data : Ref
}.

Definition SubsetGroup_handle (g : Ref) (x : Message) : M unit :=
  match kind x with
  | DataCollectionAddMessage => SubsetGroup__add_data g (message_data x)
  | DataCollectionDeleteMessage => SubsetGroup__remove_data g (message_data x)
  end.

(** * Vocabulary of the properties *)

(** The member with its override removed. *)
Definition without_override (m : GroupedSubset) : GroupedSubset :=
  mkGroupedSubset (data m) (group m) None.

(** The notifications [broadcast(item)] forwards: one per member, in order. *)
Definition fan_out (item : Item) (l : list Ref) : list Event :=
  (λ s, SubsetBroadcast s item) <$> l.

(** The member heap after the overrides of the members in [l] are cleared. *)
Definition clear_in (l : list Ref) (h : list GroupedSubset) : list GroupedSubset :=
  imap (λ i m, if bool_decide (i ∈ l) then without_override m else m) h.

(** What [clear_override_style] reports for a member of [l] that has an
    override in [w]. *)
Definition cleared_event (w : World) (l : list Ref) (e : Event) : Prop :=
  ∃ s m, e = SubsetBroadcast s (ItemAttr "style") ∧ s ∈ l ∧
         members w !! s = Some m ∧ is_Some (_style_override m).

(** The attribute names [__setattr__] broadcasts. *)
Definition broadcast_attrs : list string := ["subset_state"; "label"; "style"].

(** Whether member [s] is bound to dataset [d]: [s.data is d]. *)
Definition bound_to (w : World) (d : Ref) (s : Ref) : Prop :=
  data <$> members w !! s = Some d.

#[global] Instance bound_to_dec w d s : Decision (bound_to w d s).
Proof. unfold bound_to. apply _. Defined.

(** The body of the loop of [_remove_data]. *)
Definition remove_if_bound (g d : Ref) (s : Ref) : M unit :=
  do m <- get_member s;
  if bool_decide (data m = d) then subsets_remove g s else ret tt.

(** The [add_subset] calls of the second loop of [register]. *)
Definition attached (pairs : list (Ref * Ref)) : list Event :=
  (λ p, DataAddSubset p.1 p.2) <$> pairs.

(** An [add_subset] that notifies nothing. *)
Definition silent : Observer := λ _ _ _ _, [].


(** The [add_subset] calls over [pairs] and what they notify, when each of
    them finds the groups [gs] and the members [ms]. *)
Definition calls_observed (notified : Observer) (gs : list SubsetGroup) (ms : list GroupedSubset) (pairs : list (Ref * Ref)) : list Event :=
  pairs ≫= λ p, DataAddSubset p.1 p.2 :: notified p.1 p.2 gs ms.

(** The two subscriptions [register_to_hub] makes. *)
Definition subscribed (g : Ref) (h : Ref) : list Event :=
  [HubSubscribe h g DataCollectionAddMessage; HubSubscribe h g DataCollectionDeleteMessage].

(** [register] up to the end of its first loop. *)
Definition register_until_populated (g : Ref) (dc : DataCollection) : M unit :=
  do_ SubsetGroup_register_to_hub g (hub dc);
  register_populate g (datasets dc).

(** The world [register_until_populated] leaves. *)
Definition populated (w : World) (g : Ref) (G : SubsetGroup) (dc : DataCollection) : World :=
  mkWorld
    (<[g := mkSubsetGroup
              (subsets G ++ seq (length (members w)) (length (datasets dc)))
              (subset_state G) (label G) (_style G)]> (groups w))
    (members w ++ ((λ d, mkGroupedSubset d g None) <$> datasets dc))
    (states w) (styles w) (trace w ++ subscribed g (hub dc)).

(** After [register], the [i]-th member of the group is bound to the [i]-th
    dataset of the collection. *)
Definition members_follow_datasets (w' : World) (g : Ref) (dc : DataCollection) : Prop :=
  ∀ i d, datasets dc !! i = Some d →
    ∃ G' s m, groups w' !! g = Some G' ∧ subsets G' !! i = Some s ∧
              members w' !! s = Some m ∧ data m = d.

(** A group with one member, bound to dataset 5, as [_add_data] leaves it. *)
Definition world_with_member : World :=
  mkWorld [mkSubsetGroup [0] 0 None (Some 0)]
          [mkGroupedSubset 5 0 None]
          [""]
          [mkVisualAttributes (Some 0)]
          [DataAddSubset 5 0].

(** What a client can do to the world. *)
Inductive Mutation : Type :=
| NewGroup (lbl : option string)
| NewState (c : Criteria)
| NewStyle (p : option Ref)
| Assign_attr (g : Ref) (a : Assign)
| Paste (g other : Ref)
| Register (g : Ref) (dc : DataCollection)
| Handle (g : Ref) (x : Message)
| Broadcast (g : Ref) (item : Item)
| StyleChanged (v : Ref)
| StateChanged (r : Ref) (c : Criteria)
| MemberSetStyle (s v : Ref)
| MemberClearOverride (s : Ref)
| MemberSetLabel (s : Ref) (v : option string)
| MemberSetState (s v : Ref).

Definition mutate (μ : Mutation) : M unit :=
  match μ with
  | NewGroup lbl => do_ SubsetGroup__init__ lbl; ret tt
  | NewState c => do_ new_state c; ret tt
  | NewStyle p => do_ new_style (mkVisualAttributes p); ret tt
  | Assign_attr g a => SubsetGroup__setattr__ g a
  | Paste g other => SubsetGroup_paste g other
  | Register g dc => SubsetGroup_register g dc
  | Handle g x => SubsetGroup_handle g x
  | Broadcast g item => SubsetGroup_broadcast g item
  | StyleChanged v => VisualAttributes__setattr__ v
  | StateChanged r c => put_state r c
  | MemberSetStyle s v => GroupedSubset_set_style s v
  | MemberClearOverride s => GroupedSubset_clear_override_style s
  | MemberSetLabel s v => GroupedSubset_set_label s v
  | MemberSetState s v => GroupedSubset_set_subset_state s v
  end.

Definition run (μs : list Mutation) : M unit := for_each μs mutate.

(** Every member's [group] names a group of the store. *)
Definition grouped (w : World) : Prop :=
  Forall (λ m, group m < length (groups w)) (members w).

(** A computation keeps the invariant [P] when it ends. *)
Definition keeps {A} (P : World → Prop) (c : M A) : Prop :=
  ∀ w a w', c w = Some (a, w') → P w → P w'.

(** The example of the spec: a group labelled "A" with two members, bound
    to the datasets 10 and 11; the first member has a style override. *)
Definition group_A : SubsetGroup := mkSubsetGroup [0; 1] 0 (Some "A") (Some 0).

Definition world_A : World :=
  mkWorld [group_A]
          [mkGroupedSubset 10 0 (Some 7); mkGroupedSubset 11 0 None]
          ["x > 3"]
          [mkVisualAttributes (Some 0)]
          [].

(** A group labelled "A" as [__init__] leaves it, without members. *)
Definition new_group_A : SubsetGroup := mkSubsetGroup [] 0 (Some "A") (Some 0).

Definition world_new : World :=
  mkWorld [new_group_A] [] [""] [mkVisualAttributes (Some 0)] [].

(** Well-formed worlds.  What holds of the store in every state the module
    builds: the members a group lists exist, point back to that group and are
    listed once; a member's group exists; a group has a style and its
    selection state exists. *)
Record wf (w : World) : Prop := mk_wf {
  wf_subsets : ∀ g G s, groups w !! g = Some G → s ∈ subsets G →
                        ∃ m, members w !! s = Some m ∧ group m = g;
  wf_nodup : ∀ g G, groups w !! g = Some G → NoDup (subsets G);
  wf_group : ∀ s m, members w !! s = Some m → is_Some (groups w !! group m);
  wf_style : ∀ g G, groups w !! g = Some G → is_Some (_style G);
  wf_state : ∀ g G, groups w !! g = Some G → is_Some (states w !! subset_state G)
}.

(** The assignments a client makes to a group: to [label] and [style], and
    to [subset_state] with a state that exists.  [subsets] and [_style] are
    kept by the group itself. *)
Definition client_assign (w : World) (a : Assign) : Prop :=
  match a with
  | Set_label _ | Set_style _ => True
  | Set_subset_state v => is_Some (states w !! v)
  | Set_subsets _ | Set__style _ => False
  end.

Definition client (w : World) (μ : Mutation) : Prop :=
  match μ with
  | Assign_attr _ a => client_assign w a
  | MemberSetState _ v => is_Some (states w !! v)
  | _ => True
  end.

(** The worlds a client can build, starting with no object at all. *)
Inductive reachable : World → Prop :=
| reachable_empty : reachable empty_world
| reachable_step w μ w' :
    reachable w → client w μ → mutate μ w = Some (tt, w') → reachable w'.

(** * Further vocabulary *)

(** [SubsetGroup.style] (getter): [self._style] *)
Definition SubsetGroup_style (g : Ref) : M (option Ref) :=
  do G <- get_group g;
  ret (_style G).

(** Whether member [s] has a style override: [s._style_override is not None]. *)
Definition overridden (w : World) (s : Ref) : Prop :=
  is_Some (members w !! s ≫= _style_override).

#[global] Instance overridden_dec w s : Decision (overridden w s).
Proof. unfold overridden. apply _. Defined.

(** The operations that can change a style override: an assignment to the
    group's [style], a broadcast of a style object, a change of a style
    object, and the member's own style setter and [clear_override_style]. *)
Definition touches_overrides (μ : Mutation) : bool :=
  match μ with
  | Assign_attr _ (Set_style _) | Broadcast _ (ItemStyle _) | StyleChanged _
  | MemberSetStyle _ _ | MemberClearOverride _ => true
  | _ => false
  end.

(** The datasets the members of a group are bound to, in the order of the
    member list. *)
Definition member_datasets (w : World) (G : SubsetGroup) : list Ref :=
  omap (λ s, data <$> members w !! s) (subsets G).

(** What a message of the collection does to a list of datasets: an added
    dataset comes last, a removed one goes. *)
Definition datasets_after (ds : list Ref) (x : Message) : list Ref :=
  match kind x with
  | DataCollectionAddMessage => ds ++ [message_data x]
  | DataCollectionDeleteMessage => filter (λ d, d ≠ message_data x) ds
  end.

(** The group handles the messages [xs] one after the other. *)
Definition handle_all (g : Ref) (xs : list Message) : M unit :=
  for_each xs (SubsetGroup_handle g).

(** The members of [h] are still there, as they were. *)
Definition members_kept (h : list GroupedSubset) (w : World) : Prop :=
  h `prefix_of` members w.

(** Two groups: the group labelled "A" with its two members, and a group
    labelled "B" whose only member has a style override. *)
Definition world_two_groups : World :=
  mkWorld [group_A; mkSubsetGroup [2] 0 (Some "B") (Some 1)]
          [mkGroupedSubset 10 0 (Some 7); mkGroupedSubset 11 0 None;
           mkGroupedSubset 10 1 (Some 8)]
          ["x > 3"]
          [mkVisualAttributes (Some 0); mkVisualAttributes (Some 1)]
          [].

(** How many times member [s] is sent [item] in the trace [t]. *)
Definition notifications (s : Ref) (item : Item) (t : list Event) : nat :=
  length (filter (λ e, e = SubsetBroadcast s item) t).

(** [str(x)] as ["%s"] prints a label: a string prints as itself, [None]
    as [None]. *)
Definition py_str (o : option string) : string := default "None" o.

(** [GroupedSubset.verbose_label]: ["%s (%s)" % (self.label, self.data.label)].
    The datasets are not objects of the store: [data_label] gives the label
    of each. *)
Definition GroupedSubset_verbose_label (data_label : Ref → option string) (s : Ref) :
    M string :=
  do lbl <- GroupedSubset_label s;
  do m <- get_member s;
  ret (py_str lbl +:+ " (" +:+ py_str (data_label (data m)) +:+ ")").

(** The objects an operation is called on exist. *)
Definition names_objects (w : World) (μ : Mutation) : Prop :=
  match μ with
  | NewGroup _ | NewState _ | NewStyle _ | StateChanged _ _ => True
  | Assign_attr g _ | Register g _ | Handle g _ | Broadcast g _ =>
      is_Some (groups w !! g)
  | Paste g other => is_Some (groups w !! g) ∧ is_Some (members w !! other)
  | StyleChanged v =>
      ∃ V, styles w !! v = Some V ∧ ∀ p, parent V = Some p → is_Some (groups w !! p)
  | MemberSetStyle s _ | MemberClearOverride s | MemberSetLabel s _
  | MemberSetState s _ => is_Some (members w !! s)
  end.

(** * Properties *)

#[local] Arguments GroupedSubset_clear_override_style : simpl never.
#[local] Arguments GroupedSubset__init__ : simpl never.
#[local] Arguments SubsetGroup__clear_overrides : simpl never.
#[local] Arguments SubsetGroup_broadcast : simpl never.
#[local] Arguments SubsetGroup__setattr__ : simpl never.
#[local] Arguments Data_add_subset : simpl never.
#[local] Arguments subsets_append : simpl never.
#[local] Arguments subsets_remove : simpl never.

(** ** Running a computation *)

Lemma bind_run {A B} (m : M A) (k : A → M B) w a w1 :
  m w = Some (a, w1) → bind m k w = k a w1.
Proof. unfold bind. by intros ->. Qed.

Lemma bind_inv {A B} (m : M A) (k : A → M B) w b w2 :
  bind m k w = Some (b, w2) → ∃ a w1, m w = Some (a, w1) ∧ k a w1 = Some (b, w2).
Proof.
  unfold bind. destruct (m w) as [[a w1]|] eqn:E; [|done]. intros H. by exists a, w1.
Qed.

Lemma bind_assoc {A B C} (m : M A) (k1 : A → M B) (k2 : B → M C) w :
  bind (bind m k1) k2 w = bind m (λ a, bind (k1 a) k2) w.
Proof. unfold bind. by destruct (m w) as [[a w1]|]. Qed.

Lemma get_group_run g G w : groups w !! g = Some G → get_group g w = Some (G, w).
Proof. unfold get_group, lift. by intros ->. Qed.

Lemma get_member_run s m w : members w !! s = Some m → get_member s w = Some (m, w).
Proof. unfold get_member, lift. by intros ->. Qed.

Lemma get_state_run r c w : states w !! r = Some c → get_state r w = Some (c, w).
Proof. unfold get_state, lift. by intros ->. Qed.

Lemma get_group_inv g G w w' : get_group g w = Some (G, w') → groups w !! g = Some G ∧ w' = w.
Proof. unfold get_group, lift. destruct (groups w !! g); naive_solver. Qed.

Lemma get_member_inv s m w w' : get_member s w = Some (m, w') → members w !! s = Some m ∧ w' = w.
Proof. unfold get_member, lift. destruct (members w !! s); naive_solver. Qed.

Lemma get_state_inv r c w w' : get_state r w = Some (c, w') → states w !! r = Some c ∧ w' = w.
Proof. unfold get_state, lift. destruct (states w !! r); naive_solver. Qed.

Lemma world_eta w : mkWorld (groups w) (members w) (states w) (styles w) (trace w) = w.
Proof. by destruct w. Qed.

Lemma without_override_id m : _style_override m = None → without_override m = m.
Proof. destruct m; simpl; by intros ->. Qed.

(** ** GroupedSubset: style, override, equality *)

Lemma GroupedSubset_style_run s m G w :
  members w !! s = Some m → groups w !! group m = Some G →
  GroupedSubset_style s w =
    Some (match _style_override m with Some o => Some o | None => _style G end, w).
Proof.
  intros Hm HG. unfold GroupedSubset_style.
  rewrite (bind_run _ _ _ _ _ (get_member_run _ _ _ Hm)).
  destruct (_style_override m); [done|].
  by rewrite (bind_run _ _ _ _ _ (get_group_run _ _ _ HG)).
Qed.

Lemma GroupedSubset_set_style_run s m value w :
  members w !! s = Some m →
  GroupedSubset_set_style s value w =
    Some (tt, with_members (λ h, <[s := mkGroupedSubset (data m) (group m) (Some value)]> h) w).
Proof.
  intros Hm. unfold GroupedSubset_set_style.
  by rewrite (bind_run _ _ _ _ _ (get_member_run _ _ _ Hm)).
Qed.

Lemma clear_override_style_run s m w :
  members w !! s = Some m →
  GroupedSubset_clear_override_style s w =
    Some (tt, match _style_override m with
              | Some _ =>
                  with_trace (λ t, t ++ [SubsetBroadcast s (ItemAttr "style")])
                    (with_members (λ h, <[s := without_override m]> h) w)
              | None => w
              end).
Proof.
  intros Hm. unfold GroupedSubset_clear_override_style.
  rewrite (bind_run _ _ _ _ _ (get_member_run _ _ _ Hm)).
  by destruct (_style_override m).
Qed.

(** C6. Reading a member's style gives its local override when it has one
    and the shared style of its group otherwise; assigning to the member's
    style installs the value as the override of that member alone and leaves
    every group, shared style included, as it was. *)
Theorem style_resolves_override_then_group (w : World) (s : Ref) (m : GroupedSubset) (G : SubsetGroup) :
  members w !! s = Some m →
  groups w !! group m = Some G →
  (∀ o, _style_override m = Some o → GroupedSubset_style s w = Some (Some o, w)) ∧
  (_style_override m = None → GroupedSubset_style s w = Some (_style G, w)) ∧
  ∀ value, ∃ w',
    GroupedSubset_set_style s value w = Some (tt, w') ∧
    members w' !! s = Some (mkGroupedSubset (data m) (group m) (Some value)) ∧
    (∀ s', s' ≠ s → members w' !! s' = members w !! s') ∧
    groups w' = groups w ∧ states w' = states w ∧ styles w' = styles w ∧
    trace w' = trace w ∧
    GroupedSubset_style s w' = Some (Some value, w').
Proof.
  intros Hm HG. split; [|split].
  - intros o Ho. rewrite (GroupedSubset_style_run _ _ _ _ Hm HG). by rewrite Ho.
  - intros Ho. rewrite (GroupedSubset_style_run _ _ _ _ Hm HG). by rewrite Ho.
  - intros value. eexists. split; [by apply GroupedSubset_set_style_run|].
    assert (Hlt : s < length (members w)) by by eapply lookup_lt_Some.
    simpl. split; [by apply list_lookup_insert_eq|].
    split; [by intros s' Hne; apply list_lookup_insert_ne|].
    repeat (split; [done|]).
    by rewrite (GroupedSubset_style_run s
                  (mkGroupedSubset (data m) (group m) (Some value)) G);
      [|simpl; apply list_lookup_insert_eq|].
Qed.

Lemma style_resolves_override_then_group_witness :
  members world_A !! 0 = Some (mkGroupedSubset 10 0 (Some 7)) ∧
  groups world_A !! 0 = Some group_A ∧
  GroupedSubset_style 0 world_A = Some (Some 7, world_A).
Proof.
  split; [reflexivity|]. split; [reflexivity|].
  exact (proj1 (style_resolves_override_then_group world_A 0
                  (mkGroupedSubset 10 0 (Some 7)) group_A eq_refl eq_refl)
               7 eq_refl).
Defined.

(** C7. [clear_override_style] removes the override and records one style
    notification exactly when the member had an override; without one it
    leaves the world as it is, so a second call in a row does nothing. *)
Theorem clear_override_style_notifies_iff_set (w : World) (s : Ref) (m : GroupedSubset) :
  members w !! s = Some m →
  ∃ w',
    GroupedSubset_clear_override_style s w = Some (tt, w') ∧
    members w' !! s = Some (without_override m) ∧
    (∀ s', s' ≠ s → members w' !! s' = members w !! s') ∧
    groups w' = groups w ∧ states w' = states w ∧ styles w' = styles w ∧
    (is_Some (_style_override m) →
       trace w' = trace w ++ [SubsetBroadcast s (ItemAttr "style")]) ∧
    (_style_override m = None → w' = w) ∧
    (trace w' ≠ trace w ↔ is_Some (_style_override m)) ∧
    GroupedSubset_clear_override_style s w' = Some (tt, w').
Proof.
  intros Hm. eexists. split; [by apply clear_override_style_run|].
  assert (Hlt : s < length (members w)) by by eapply lookup_lt_Some.
  destruct (_style_override m) as [o|] eqn:Ho; simpl.
  - split; [by apply list_lookup_insert_eq|].
    split; [by intros s' Hne; apply list_lookup_insert_ne|].
    repeat (split; [done|]). split.
    + split; [by eauto|]. intros _ Heq.
      apply (f_equal length) in Heq. rewrite length_app in Heq. simpl in Heq. lia.
    + by rewrite (clear_override_style_run s (without_override m));
        [|simpl; apply list_lookup_insert_eq].
  - rewrite without_override_id by done.
    do 5 (split; [done|]). split; [by intros [? ?]|]. split; [done|]. split.
    + split; [done|]. by intros [? ?].
    + rewrite (clear_override_style_run s m) by done. by rewrite Ho.
Qed.

Lemma clear_override_style_notifies_iff_set_witness :
  members world_A !! 0 = Some (mkGroupedSubset 10 0 (Some 7)) ∧
  ∃ w', GroupedSubset_clear_override_style 0 world_A = Some (tt, w') ∧
        trace w' = [SubsetBroadcast 0 (ItemAttr "style")] ∧
        GroupedSubset_clear_override_style 0 w' = Some (tt, w').
Proof.
  split; [reflexivity|].
  destruct (clear_override_style_notifies_iff_set world_A 0
              (mkGroupedSubset 10 0 (Some 7)) eq_refl)
    as (w' & Hrun & _ & _ & _ & _ & _ & Htrace & _ & _ & Hagain).
  exists w'. split; [exact Hrun|]. split; [|exact Hagain].
  apply Htrace. simpl. by eexists.
Defined.

(** C9. Two grouped subsets are equal exactly when they are the same
    object: a member equals itself, and two different members are unequal
    even when all their attributes, and so the label, selection state and
    style they report, are the same. *)
Theorem eq_is_identity (a b : Ref) :
  (GroupedSubset__eq__ a b = true ↔ a = b) ∧
  GroupedSubset__eq__ a a = true ∧
  ∀ (w : World) (m : GroupedSubset),
    members w !! a = Some m → members w !! b = Some m → a ≠ b →
    GroupedSubset_label a w = GroupedSubset_label b w ∧
    GroupedSubset_subset_state a w = GroupedSubset_subset_state b w ∧
    GroupedSubset_style a w = GroupedSubset_style b w ∧
    GroupedSubset__eq__ a b = false.
Proof.
  unfold GroupedSubset__eq__. split; [|split].
  - rewrite bool_decide_eq_true. naive_solver.
  - by apply bool_decide_eq_true.
  - intros w m Ha Hb Hne.
    unfold GroupedSubset_label, GroupedSubset_subset_state, GroupedSubset_style, Pointer__get__.
    rewrite !(bind_run _ _ _ _ _ (get_member_run _ _ _ Ha)).
    rewrite !(bind_run _ _ _ _ _ (get_member_run _ _ _ Hb)).
    repeat (split; [done|]).
    apply bool_decide_eq_false. naive_solver.
Qed.

Lemma eq_is_identity_witness :
  GroupedSubset__eq__ 0 0 = true ∧ GroupedSubset__eq__ 0 1 = false.
Proof.
  split; [exact (proj1 (proj2 (eq_is_identity 0 0)))|].
  pose (w := mkWorld [group_A] [mkGroupedSubset 10 0 None; mkGroupedSubset 10 0 None]
                     [""] [] []).
  exact (proj2 (proj2 (proj2
           (proj2 (proj2 (eq_is_identity 0 1)) w (mkGroupedSubset 10 0 None)
                  eq_refl eq_refl ltac:(lia))))).
Defined.

(** ** Loops over the member list *)

Lemma for_each_broadcast_run item l w :
  for_each l (λ s, Subset_broadcast s item) w =
    Some (tt, with_trace (λ t, t ++ fan_out item l) w).
Proof.
  revert w. induction l as [|x l IH]; intros w; simpl.
  - unfold ret, with_trace, fan_out. simpl. by rewrite app_nil_r, world_eta.
  - unfold bind, Subset_broadcast, emit. rewrite IH.
    unfold with_trace, fan_out. simpl. by rewrite <- app_assoc.
Qed.

Lemma lookup_clear_in l h i :
  clear_in l h !! i =
    (λ m, if bool_decide (i ∈ l) then without_override m else m) <$> h !! i.
Proof. unfold clear_in. by rewrite list_lookup_imap. Qed.

Lemma length_clear_in l h : length (clear_in l h) = length h.
Proof. unfold clear_in. by rewrite length_imap. Qed.

Lemma clear_in_cons x l h m :
  h !! x = Some m →
  clear_in l (<[x := without_override m]> h) = clear_in (x :: l) h.
Proof.
  intros Hx. apply list_eq. intros i. rewrite !lookup_clear_in.
  destruct (decide (i = x)) as [->|Hne].
  - rewrite list_lookup_insert_eq by by eapply lookup_lt_Some.
    rewrite Hx. simpl. rewrite (bool_decide_eq_true_2 (x ∈ x :: l)) by set_solver.
    by case_bool_decide.
  - rewrite list_lookup_insert_ne by done.
    destruct (h !! i) as [mi|]; [|done]. simpl.
    rewrite (bool_decide_ext (i ∈ x :: l) (i ∈ l)); [done|set_solver].
Qed.

Lemma for_each_clear_run l w :
  Forall (λ s, is_Some (members w !! s)) l →
  ∃ pre,
    for_each l GroupedSubset_clear_override_style w =
      Some (tt, mkWorld (groups w) (clear_in l (members w)) (states w) (styles w)
                        (trace w ++ pre)) ∧
    NoDup pre ∧ ∀ e, e ∈ pre ↔ cleared_event w l e.
Proof.
  revert w. induction l as [|x l IH]; intros w Hall.
  - exists []. simpl. unfold ret, clear_in. split; [|split].
    + rewrite app_nil_r. rewrite <- (world_eta w) at 1. do 3 f_equal.
      apply list_eq. intros i. rewrite list_lookup_imap.
      by destruct (members w !! i).
    + constructor.
    + intros e. split; [by intros ?%elem_of_nil|].
      by intros (s & m & _ & ?%elem_of_nil & _).
  - apply Forall_cons in Hall as [[m Hm] Hall]. simpl.
    rewrite (bind_run _ _ _ _ _ (clear_override_style_run _ _ _ Hm)).
    destruct (_style_override m) as [o|] eqn:Ho.
    + destruct (IH (with_trace (λ t, t ++ [SubsetBroadcast x (ItemAttr "style")])
                     (with_members (λ h, <[x := without_override m]> h) w)))
        as (pre & Hrun & Hnd & Hpre).
      { simpl. eapply Forall_impl; [exact Hall|]. intros s [ms Hs]. simpl.
        apply lookup_lt_is_Some. rewrite length_insert. by eapply lookup_lt_Some. }
      exists (SubsetBroadcast x (ItemAttr "style") :: pre).
      rewrite Hrun. simpl. rewrite (clear_in_cons _ _ _ _ Hm), <- app_assoc.
      split; [done|]. split.
      * constructor; [|done]. rewrite Hpre.
        intros (s & ms & [= <-] & _ & Hs & Hov). simpl in Hs.
        rewrite list_lookup_insert_eq in Hs by by eapply lookup_lt_Some.
        injection Hs as <-. by destruct Hov.
      * intros e. rewrite elem_of_cons, Hpre. unfold cleared_event. simpl. split.
        -- intros [->|(s & ms & -> & Hin & Hs & Hov)].
           ++ exists x, m. rewrite Ho. set_solver.
           ++ destruct (decide (s = x)) as [->|Hne].
              ** rewrite list_lookup_insert_eq in Hs by by eapply lookup_lt_Some.
                 injection Hs as <-. by destruct Hov.
              ** rewrite list_lookup_insert_ne in Hs by done.
                 exists s, ms. set_solver.
        -- intros (s & ms & -> & Hin & Hs & Hov).
           destruct (decide (s = x)) as [->|Hne]; [by left|]. right.
           exists s, ms. rewrite list_lookup_insert_ne by done. set_solver.
    + destruct (IH w Hall) as (pre & Hrun & Hnd & Hpre).
      exists pre. rewrite Hrun.
      rewrite <- (clear_in_cons _ _ _ _ Hm), without_override_id by done.
      rewrite list_insert_id by done.
      split; [done|]. split; [done|].
      intros e. rewrite Hpre. unfold cleared_event. split.
      * intros (s & ms & -> & Hin & Hs & Hov). exists s, ms. set_solver.
      * intros (s & ms & -> & Hin & Hs & Hov). exists s, ms.
        repeat (split; [done|]). split; [|done].
        apply elem_of_cons in Hin as [->|Hin]; [|done].
        rewrite Hm in Hs. injection Hs as <-. rewrite Ho in Hov. by destruct Hov.
Qed.

Lemma wf_subsets_allocated w g G :
  wf w → groups w !! g = Some G →
  Forall (λ s, is_Some (members w !! s)) (subsets G).
Proof.
  intros Hwf HG. apply Forall_forall. intros s Hs.
  destruct (wf_subsets w Hwf g G s HG Hs) as (m & Hm & _). by exists m.
Qed.

(** Well-formedness of a store that is written out. *)
Ltac wf_concrete :=
  constructor; simpl;
  [ intros [|?] ? ? ? Hin | intros [|?] ? ? | intros ? ? ? | intros [|?] ? ? | intros [|?] ? ? ];
  simplify_eq/=;
  repeat match goal with
         | H : _ ∈ _ :: _ |- _ => apply elem_of_cons in H as [->|H]
         | H : _ ∈ [] |- _ => by apply elem_of_nil in H
         | H : (_ :: _) !! ?i = Some _ |- _ => destruct i; simplify_eq/=
         end;
  eauto; repeat constructor; set_solver.

Lemma wf_world_A : wf world_A.
Proof. wf_concrete. Qed.


(** ** Assignment to a group attribute *)

Lemma put_group_lookup g G G' w :
  groups w !! g = Some G →
  groups (with_groups (λ h, <[g := G']> h) w) !! g = Some G'.
Proof. intros HG. simpl. apply list_lookup_insert_eq. by eapply lookup_lt_Some. Qed.

Lemma clear_overrides_run g G w :
  groups w !! g = Some G →
  Forall (λ s, is_Some (members w !! s)) (subsets G) →
  ∃ pre,
    SubsetGroup__clear_overrides g w =
      Some (tt, mkWorld (groups w) (clear_in (subsets G) (members w)) (states w)
                        (styles w) (trace w ++ pre)) ∧
    NoDup pre ∧ ∀ e, e ∈ pre ↔ cleared_event w (subsets G) e.
Proof.
  intros HG Hall. unfold SubsetGroup__clear_overrides.
  rewrite (bind_run _ _ _ _ _ (get_group_run _ _ _ HG)).
  by apply for_each_clear_run.
Qed.

Lemma broadcast_attr_run g G name w :
  groups w !! g = Some G →
  SubsetGroup_broadcast g (ItemAttr name) w =
    Some (tt, with_trace (λ t, t ++ fan_out (ItemAttr name) (subsets G)) w).
Proof.
  intros HG. unfold SubsetGroup_broadcast.
  rewrite (bind_run _ _ _ _ _ (get_group_run _ _ _ HG)).
  apply for_each_broadcast_run.
Qed.

Lemma setattr_subset_state_run g G v w :
  groups w !! g = Some G →
  SubsetGroup__setattr__ g (Set_subset_state v) w =
    Some (tt, mkWorld (<[g := mkSubsetGroup (subsets G) v (label G) (_style G)]> (groups w))
                      (members w) (states w) (styles w)
                      (trace w ++ fan_out (ItemAttr "subset_state") (subsets G))).
Proof.
  intros HG. unfold SubsetGroup__setattr__, object__setattr__.
  rewrite (bind_run _ _ _ _ _ (bind_run _ _ _ _ _ (get_group_run _ _ _ HG))).
  unfold put_group. simpl.
  by rewrite (broadcast_attr_run g _ _ _ (put_group_lookup _ _ _ _ HG)).
Qed.

Lemma setattr_label_run g G v w :
  groups w !! g = Some G →
  SubsetGroup__setattr__ g (Set_label v) w =
    Some (tt, mkWorld (<[g := mkSubsetGroup (subsets G) (subset_state G) v (_style G)]> (groups w))
                      (members w) (states w) (styles w)
                      (trace w ++ fan_out (ItemAttr "label") (subsets G))).
Proof.
  intros HG. unfold SubsetGroup__setattr__, object__setattr__.
  rewrite (bind_run _ _ _ _ _ (bind_run _ _ _ _ _ (get_group_run _ _ _ HG))).
  unfold put_group. simpl.
  by rewrite (broadcast_attr_run g _ _ _ (put_group_lookup _ _ _ _ HG)).
Qed.

Lemma setattr_subsets_run g G v w :
  groups w !! g = Some G →
  SubsetGroup__setattr__ g (Set_subsets v) w =
    Some (tt, with_groups (λ h, <[g := mkSubsetGroup v (subset_state G) (label G) (_style G)]> h) w).
Proof.
  intros HG. unfold SubsetGroup__setattr__, object__setattr__.
  by rewrite (bind_run _ _ _ _ _ (bind_run _ _ _ _ _ (get_group_run _ _ _ HG))).
Qed.

Lemma setattr__style_run g G v w :
  groups w !! g = Some G →
  SubsetGroup__setattr__ g (Set__style v) w =
    Some (tt, with_groups (λ h, <[g := mkSubsetGroup (subsets G) (subset_state G) (label G) v]> h) w).
Proof.
  intros HG. unfold SubsetGroup__setattr__, object__setattr__.
  by rewrite (bind_run _ _ _ _ _ (bind_run _ _ _ _ _ (get_group_run _ _ _ HG))).
Qed.

Lemma setattr_style_run g G v w :
  groups w !! g = Some G →
  Forall (λ s, is_Some (members w !! s)) (subsets G) →
  ∃ pre,
    SubsetGroup__setattr__ g (Set_style v) w =
      Some (tt, mkWorld (<[g := mkSubsetGroup (subsets G) (subset_state G) (label G) (Some v)]> (groups w))
                        (clear_in (subsets G) (members w)) (states w) (styles w)
                        (trace w ++ pre ++ fan_out (ItemAttr "style") (subsets G))) ∧
    NoDup pre ∧ ∀ e, e ∈ pre ↔ cleared_event w (subsets G) e.
Proof.
  intros HG Hall.
  pose (G' := mkSubsetGroup (subsets G) (subset_state G) (label G) (Some v)).
  destruct (clear_overrides_run g G' (with_groups (λ h, <[g := G']> h) w))
    as (pre & Hrun & Hnd & Hpre); [by eapply put_group_lookup|done|].
  exists pre. split; [|done].
  unfold SubsetGroup__setattr__, object__setattr__.
  rewrite bind_assoc, (bind_run _ _ _ _ _ (get_group_run _ _ _ HG)).
  rewrite bind_assoc. unfold put_group at 1. unfold bind at 1. fold G'.
  rewrite (bind_run _ _ _ _ _ Hrun). simpl.
  rewrite (broadcast_attr_run g G'); [|simpl; by eapply put_group_lookup].
  unfold with_trace. simpl. by rewrite <- app_assoc.
Qed.

(** C2. Assigning the group's [style] clears the override of every member:
    right after the assignment no member of the group has an override and
    each one reports the new shared style, and a member reports another
    style again only once it is given an override of its own. *)
Theorem style_assignment_clears_overrides (w : World) (g : Ref) (G : SubsetGroup) (v : Ref) :
  wf w →
  groups w !! g = Some G →
  ∃ w' G',
    SubsetGroup__setattr__ g (Set_style v) w = Some (tt, w') ∧
    groups w' !! g = Some G' ∧ _style G' = Some v ∧ subsets G' = subsets G ∧
    ∀ s, s ∈ subsets G →
      (∃ m', members w' !! s = Some m' ∧ _style_override m' = None) ∧
      GroupedSubset_style s w' = Some (Some v, w') ∧
      ∀ o, ∃ w'',
        GroupedSubset_set_style s o w' = Some (tt, w'') ∧
        GroupedSubset_style s w'' = Some (Some o, w'').
Proof.
  intros Hwf HG.
  destruct (setattr_style_run g G v w HG (wf_subsets_allocated w g G Hwf HG))
    as (pre & Hrun & _).
  eexists _, (mkSubsetGroup (subsets G) (subset_state G) (label G) (Some v)).
  split; [exact Hrun|]. simpl.
  assert (Hg : <[g := mkSubsetGroup (subsets G) (subset_state G) (label G) (Some v)]>
                 (groups w) !! g
               = Some (mkSubsetGroup (subsets G) (subset_state G) (label G) (Some v))).
  { apply list_lookup_insert_eq. by eapply lookup_lt_Some. }
  repeat (split; [done|]).
  intros s Hs. destruct (wf_subsets w Hwf g G s HG Hs) as (m & Hm & Hgm).
  assert (Hs' : clear_in (subsets G) (members w) !! s = Some (without_override m)).
  { rewrite lookup_clear_in, Hm. simpl. by rewrite bool_decide_eq_true_2. }
  split; [by exists (without_override m)|]. split.
  - rewrite (GroupedSubset_style_run s (without_override m)
               (mkSubsetGroup (subsets G) (subset_state G) (label G) (Some v)));
      [done|done|]. simpl. by rewrite Hgm.
  - intros o. eexists. split.
    + by apply (GroupedSubset_set_style_run s (without_override m)).
    + rewrite (GroupedSubset_style_run s (mkGroupedSubset (data m) (group m) (Some o))
                 (mkSubsetGroup (subsets G) (subset_state G) (label G) (Some v)));
        [done| |].
      * simpl. apply list_lookup_insert_eq. by eapply lookup_lt_Some.
      * simpl. by rewrite Hgm.
Qed.

Lemma style_assignment_clears_overrides_witness :
  wf world_A ∧ groups world_A !! 0 = Some group_A ∧
  ∃ w', SubsetGroup__setattr__ 0 (Set_style 9) world_A = Some (tt, w') ∧
        GroupedSubset_style 0 w' = Some (Some 9, w') ∧
        GroupedSubset_style 1 w' = Some (Some 9, w').
Proof.
  split; [exact wf_world_A|]. split; [reflexivity|].
  destruct (style_assignment_clears_overrides world_A 0 group_A 9 wf_world_A eq_refl)
    as (w' & G' & Hrun & _ & _ & _ & Hall).
  exists w'. split; [exact Hrun|]. split.
  - apply (Hall 0). simpl. set_solver.
  - apply (Hall 1). simpl. set_solver.
Defined.

(** C3. An assignment to [subset_state], [label] or [style] of a group ends
    with one forwarded notification of that attribute per member, in the
    order of the member list (for [subset_state] and [label] nothing else
    is recorded; a [style] assignment first clears the overrides); an
    assignment to another attribute records nothing.  A broadcast of a style
    object clears the overrides of all members, is the same computation as
    [_clear_overrides], and forwards the object to no member. *)
Theorem setattr_broadcasts_to_members (w : World) (g : Ref) (G : SubsetGroup) (a : Assign) :
  wf w →
  groups w !! g = Some G →
  (attr a ∈ broadcast_attrs →
     ∃ w' pre,
       SubsetGroup__setattr__ g a w = Some (tt, w') ∧
       trace w' = trace w ++ pre ++ fan_out (ItemAttr (attr a)) (subsets G) ∧
       (attr a ≠ "style" → pre = []) ∧
       (attr a = "style" → ∀ e, e ∈ pre ↔ cleared_event w (subsets G) e)) ∧
  (attr a ∉ broadcast_attrs →
     ∃ w', SubsetGroup__setattr__ g a w = Some (tt, w') ∧ trace w' = trace w) ∧
  ∀ style, ∃ w' pre,
    SubsetGroup_broadcast g (ItemStyle style) w = Some (tt, w') ∧
    SubsetGroup__clear_overrides g w = Some (tt, w') ∧
    (∀ s, s ∈ subsets G →
          ∃ m', members w' !! s = Some m' ∧ _style_override m' = None) ∧
    trace w' = trace w ++ pre ∧
    (∀ e, e ∈ pre ↔ cleared_event w (subsets G) e) ∧
    ∀ s, SubsetBroadcast s (ItemStyle style) ∉ pre.
Proof.
  intros Hwf HG.
  pose proof (wf_subsets_allocated w g G Hwf HG) as Hall.
  split; [|split].
  - intros Hin. destruct a as [l|r|lbl|v|o]; simpl in *.
    + exfalso. revert Hin. unfold broadcast_attrs. set_solver.
    + eexists _, []. split; [by apply setattr_subset_state_run|]. simpl.
      by repeat split.
    + eexists _, []. split; [by apply setattr_label_run|]. simpl.
      by repeat split.
    + destruct (setattr_style_run g G v w HG Hall) as (pre & Hrun & _ & Hpre).
      eexists _, pre. split; [exact Hrun|]. simpl.
      split; [done|]. split; [by intros []|]. by intros _.
    + exfalso. revert Hin. unfold broadcast_attrs. set_solver.
  - intros Hnin. destruct a as [l|r|lbl|v|o]; simpl in *.
    + eexists. split; [by apply setattr_subsets_run|done].
    + exfalso. apply Hnin. unfold broadcast_attrs. set_solver.
    + exfalso. apply Hnin. unfold broadcast_attrs. set_solver.
    + exfalso. apply Hnin. unfold broadcast_attrs. set_solver.
    + eexists. split; [by apply setattr__style_run|done].
  - intros style.
    destruct (clear_overrides_run g G w HG Hall) as (pre & Hrun & _ & Hpre).
    eexists _, pre. split; [exact Hrun|]. split; [exact Hrun|]. simpl.
    split; [|split; [done|split; [done|]]].
    + intros s Hs. destruct (wf_subsets w Hwf g G s HG Hs) as (m & Hm & _).
      exists (without_override m). split; [|done].
      rewrite lookup_clear_in, Hm. simpl. by rewrite bool_decide_eq_true_2.
    + intros s Hs. apply Hpre in Hs as (s' & m & [=] & _).
Qed.

Lemma setattr_broadcasts_to_members_witness :
  wf world_A ∧ groups world_A !! 0 = Some group_A ∧
  ∃ w', SubsetGroup__setattr__ 0 (Set_label (Some "B")) world_A = Some (tt, w') ∧
        trace w' = [SubsetBroadcast 0 (ItemAttr "label"); SubsetBroadcast 1 (ItemAttr "label")].
Proof.
  split; [exact wf_world_A|]. split; [reflexivity|].
  destruct (proj1 (setattr_broadcasts_to_members world_A 0 group_A (Set_label (Some "B"))
                     wf_world_A eq_refl))
    as (w' & pre & Hrun & Htrace & Hpre & _).
  { simpl. unfold broadcast_attrs. set_solver. }
  exists w'. split; [exact Hrun|].
  rewrite Htrace, Hpre; [reflexivity|]. by simpl.
Defined.

(** ** Removing a dataset *)

Lemma list_remove_first kept x rest :
  x ∉ kept → list_remove x (kept ++ x :: rest) = Some (kept ++ rest).
Proof.
  intros Hnin. induction kept as [|y kept IH]; simpl.
  - unfold GroupedSubset__eq__. by rewrite bool_decide_eq_true_2.
  - apply not_elem_of_cons in Hnin as [Hne Hnin].
    unfold GroupedSubset__eq__. rewrite bool_decide_eq_false_2 by done.
    by rewrite IH.
Qed.

Lemma subsets_remove_run g G s l w :
  groups w !! g = Some G → list_remove s (subsets G) = Some l →
  subsets_remove g s w =
    Some (tt, with_groups
                (λ h, <[g := mkSubsetGroup l (subset_state G) (label G) (_style G)]> h) w).
Proof.
  intros HG Hl. unfold subsets_remove.
  rewrite (bind_run _ _ _ _ _ (get_group_run _ _ _ HG)).
  unfold bind, lift. by rewrite Hl.
Qed.

Lemma remove_loop_run g d rest : ∀ w kept G,
  groups w !! g = Some G →
  subsets G = kept ++ rest →
  Forall (λ s, is_Some (members w !! s)) rest →
  Forall (λ s, ¬ bound_to w d s) kept →
  for_each rest (remove_if_bound g d) w =
    Some (tt, with_groups
                (λ h, <[g := mkSubsetGroup (kept ++ filter (λ s, ¬ bound_to w d s) rest)
                                           (subset_state G) (label G) (_style G)]> h) w).
Proof.
  induction rest as [|x rest IH]; intros w kept G HG Hsub Hall Hkept.
  - simpl. unfold ret. do 2 f_equal.
    rewrite filter_nil, <- Hsub.
    unfold with_groups. rewrite <- (world_eta w) at 1. f_equal.
    symmetry. apply list_insert_id. by destruct G.
  - apply Forall_cons in Hall as [[m Hm] Hall]. simpl.
    unfold remove_if_bound at 1.
    rewrite bind_assoc, (bind_run _ _ _ _ _ (get_member_run _ _ _ Hm)).
    case_bool_decide as Hd.
    + assert (Hb : bound_to w d x) by (unfold bound_to; by rewrite Hm, <- Hd).
      assert (Hnin : x ∉ kept).
      { intros Hin. by eapply (proj1 (Forall_forall _ _) Hkept). }
      rewrite (bind_run _ _ _ _ _
                 (subsets_remove_run g G x (kept ++ rest) w HG
                    ltac:(rewrite Hsub; by apply list_remove_first))).
      rewrite (IH _ kept (mkSubsetGroup (kept ++ rest) (subset_state G) (label G) (_style G)));
        [| by eapply put_group_lookup | done | done | done].
      rewrite filter_cons_False by by intros Hn.
      unfold with_groups. simpl. by rewrite list_insert_insert_eq.
    + assert (Hb : ¬ bound_to w d x).
      { unfold bound_to. rewrite Hm. simpl. by intros [=]. }
      unfold ret, bind.
      rewrite (IH w (kept ++ [x]) G HG); [| by rewrite <- app_assoc | done |].
      * rewrite filter_cons_True by done. by rewrite <- app_assoc.
      * apply Forall_app. split; [done|]. by apply Forall_singleton.
Qed.

Lemma remove_data_run g G d w :
  groups w !! g = Some G →
  Forall (λ s, is_Some (members w !! s)) (subsets G) →
  SubsetGroup__remove_data g d w =
    Some (tt, with_groups
                (λ h, <[g := mkSubsetGroup (filter (λ s, ¬ bound_to w d s) (subsets G))
                                           (subset_state G) (label G) (_style G)]> h) w).
Proof.
  intros HG Hall. unfold SubsetGroup__remove_data.
  rewrite (bind_run _ _ _ _ _ (get_group_run _ _ _ HG)).
  by apply (remove_loop_run g d (subsets G) w [] G).
Qed.

(** C4. Handling the removal of dataset [d] takes out of the group's member
    list exactly the members bound to [d]: the new list is the old one
    without them, the others staying in place and in order; nothing else in
    the world changes. *)
Theorem remove_data_removes_exactly_bound (w : World) (g : Ref) (G : SubsetGroup) (d : Ref) :
  wf w →
  groups w !! g = Some G →
  ∃ w' G',
    SubsetGroup__remove_data g d w = Some (tt, w') ∧
    SubsetGroup_handle g (mkMessage DataCollectionDeleteMessage d) w = Some (tt, w') ∧
    groups w' !! g = Some G' ∧
    subsets G' = filter (λ s, ¬ bound_to w d s) (subsets G) ∧
    (∀ s, s ∈ subsets G' ↔ s ∈ subsets G ∧ ¬ bound_to w d s) ∧
    subsets G' `sublist_of` subsets G ∧
    subset_state G' = subset_state G ∧ label G' = label G ∧ _style G' = _style G ∧
    (∀ g', g' ≠ g → groups w' !! g' = groups w !! g') ∧
    members w' = members w ∧ states w' = states w ∧ styles w' = styles w ∧
    trace w' = trace w.
Proof.
  intros Hwf HG.
  pose proof (remove_data_run g G d w HG (wf_subsets_allocated w g G Hwf HG)) as Hrun.
  eexists _, _. split; [exact Hrun|]. split; [exact Hrun|]. simpl.
  split; [apply list_lookup_insert_eq; by eapply lookup_lt_Some|]. simpl.
  split; [done|]. split; [|split].
  - intros s. rewrite list_elem_of_filter. naive_solver.
  - apply sublist_filter.
  - repeat (split; [done|]). split; [|done].
    intros g' Hne. by apply list_lookup_insert_ne.
Qed.

Lemma remove_data_removes_exactly_bound_witness :
  wf world_A ∧ groups world_A !! 0 = Some group_A ∧
  ∃ w' G', SubsetGroup__remove_data 0 10 world_A = Some (tt, w') ∧
           groups w' !! 0 = Some G' ∧ subsets G' = [1].
Proof.
  split; [exact wf_world_A|]. split; [reflexivity|].
  destruct (remove_data_removes_exactly_bound world_A 0 group_A 10 wf_world_A eq_refl)
    as (w' & G' & Hrun & _ & HG' & Hsub & _).
  exists w', G'. split; [exact Hrun|]. split; [exact HG'|].
  rewrite Hsub. reflexivity.
Defined.

(** ** Adding a dataset *)

Lemma GroupedSubset__init___run d g G w :
  groups w !! g = Some G → is_Some (_style G) →
  GroupedSubset__init__ d g w =
    Some (length (members w), with_members (λ h, h ++ [mkGroupedSubset d g None]) w).
Proof.
  intros HG [v Hv]. unfold GroupedSubset__init__.
  rewrite (bind_run _ _ _ _ _ (get_group_run _ _ _ HG)). by rewrite Hv.
Qed.

Lemma subsets_append_run g G s w :
  groups w !! g = Some G →
  subsets_append g s w =
    Some (tt, with_groups
                (λ h, <[g := mkSubsetGroup (subsets G ++ [s]) (subset_state G)
                                           (label G) (_style G)]> h) w).
Proof.
  intros HG. unfold subsets_append.
  by rewrite (bind_run _ _ _ _ _ (get_group_run _ _ _ HG)).
Qed.

Lemma add_data_run g G d w :
  groups w !! g = Some G → is_Some (_style G) →
  SubsetGroup__add_data g d w =
    Some (tt, mkWorld
                (<[g := mkSubsetGroup (subsets G ++ [length (members w)])
                                      (subset_state G) (label G) (_style G)]> (groups w))
                (members w ++ [mkGroupedSubset d g None])
                (states w) (styles w)
                (trace w ++ [DataAddSubset d (length (members w))])).
Proof.
  intros HG Hst. unfold SubsetGroup__add_data.
  rewrite (bind_run _ _ _ _ _ (GroupedSubset__init___run d g G w HG Hst)).
  unfold Data_add_subset, emit. unfold bind at 1.
  by rewrite (subsets_append_run g G).
Qed.

(** C5. Handling the addition of dataset [d] creates one member, bound to
    [d] and belonging to the group, registers it with [d] by one
    [add_subset] call, and appends it to the end of the member list; the
    members that existed before are all still there, unchanged. *)
Theorem add_data_appends_one_member (w : World) (g : Ref) (G : SubsetGroup) (d : Ref) :
  wf w →
  groups w !! g = Some G →
  ∃ w' G' s,
    SubsetGroup__add_data g d w = Some (tt, w') ∧
    SubsetGroup_handle g (mkMessage DataCollectionAddMessage d) w = Some (tt, w') ∧
    members w !! s = None ∧
    members w' = members w ++ [mkGroupedSubset d g None] ∧
    members w' !! s = Some (mkGroupedSubset d g None) ∧
    (∀ s' m, members w !! s' = Some m → members w' !! s' = Some m) ∧
    trace w' = trace w ++ [DataAddSubset d s] ∧
    groups w' !! g = Some G' ∧
    subsets G' = subsets G ++ [s] ∧
    subset_state G' = subset_state G ∧ label G' = label G ∧ _style G' = _style G ∧
    (∀ g', g' ≠ g → groups w' !! g' = groups w !! g') ∧
    states w' = states w ∧ styles w' = styles w.
Proof.
  intros Hwf HG.
  pose proof (add_data_run g G d w HG (wf_style w Hwf g G HG)) as Hrun.
  eexists _, _, (length (members w)).
  split; [exact Hrun|]. split; [exact Hrun|]. simpl.
  split; [by apply lookup_ge_None_2|]. split; [done|].
  split; [by apply list_lookup_middle|].
  split; [by intros s' m Hs'; apply lookup_app_l_Some|].
  split; [done|].
  split; [apply list_lookup_insert_eq; by eapply lookup_lt_Some|]. simpl.
  repeat (split; [done|]). split; [|done].
  intros g' Hne. by apply list_lookup_insert_ne.
Qed.

Lemma add_data_appends_one_member_witness :
  wf world_A ∧ groups world_A !! 0 = Some group_A ∧
  ∃ w' G', SubsetGroup__add_data 0 12 world_A = Some (tt, w') ∧
           groups w' !! 0 = Some G' ∧ subsets G' = [0; 1; 2] ∧
           members w' !! 2 = Some (mkGroupedSubset 12 0 None) ∧
           trace w' = [DataAddSubset 12 2].
Proof.
  split; [exact wf_world_A|]. split; [reflexivity|].
  destruct (add_data_appends_one_member world_A 0 group_A 12 wf_world_A eq_refl)
    as (w' & G' & s & Hrun & _ & _ & Hmem & _ & _ & Htrace & HG' & Hsub & _).
  exists w', G'. split; [exact Hrun|]. split; [exact HG'|].
  assert (Hs : DataAddSubset 12 s = DataAddSubset 12 2).
  { pose proof (add_data_run 0 group_A 12 world_A eq_refl ltac:(by eexists)) as Hrun'.
    rewrite Hrun in Hrun'. injection Hrun' as ->. simpl in Htrace.
    by injection Htrace as <-. }
  injection Hs as ->.
  split; [exact Hsub|]. split; [by rewrite Hmem|]. exact Htrace.
Defined.

(** ** Pasting a selection state *)

Lemma Pointer__get___run {A} (field : SubsetGroup → A) s m G w :
  members w !! s = Some m → groups w !! group m = Some G →
  Pointer__get__ field s w = Some (field G, w).
Proof.
  intros Hm HG. unfold Pointer__get__.
  rewrite (bind_run _ _ _ _ _ (get_member_run _ _ _ Hm)).
  by rewrite (bind_run _ _ _ _ _ (get_group_run _ _ _ HG)).
Qed.

Lemma paste_run g G other m Go c w :
  groups w !! g = Some G →
  members w !! other = Some m → groups w !! group m = Some Go →
  states w !! subset_state Go = Some c →
  SubsetGroup_paste g other w =
    Some (tt, mkWorld
                (<[g := mkSubsetGroup (subsets G) (length (states w)) (label G) (_style G)]>
                   (groups w))
                (members w) (states w ++ [c]) (styles w)
                (trace w ++ fan_out (ItemAttr "subset_state") (subsets G))).
Proof.
  intros HG Hm HGo Hc. unfold SubsetGroup_paste, GroupedSubset_subset_state.
  rewrite (bind_run _ _ _ _ _ (Pointer__get___run _ _ _ _ _ Hm HGo)).
  unfold SubsetState_copy.
  rewrite bind_assoc, (bind_run _ _ _ _ _ (get_state_run _ _ _ Hc)).
  unfold new_state. unfold bind at 1.
  by rewrite (setattr_subset_state_run g G).
Qed.

(** C8. [paste] installs, as the shared selection state of the group, a new
    state object that holds the criteria of [other_subset]'s state at the
    time of the call; the assignment is notified to every member of the
    group; and changing the criteria of the state that was copied leaves the
    criteria of the group's state as they are. *)
Theorem paste_installs_deep_copy (w : World) (g : Ref) (G : SubsetGroup) (other : Ref) (m : GroupedSubset) :
  wf w →
  groups w !! g = Some G →
  members w !! other = Some m →
  ∃ w' G' r c,
    GroupedSubset_subset_state other w = Some (r, w) ∧
    states w !! r = Some c ∧
    SubsetGroup_paste g other w = Some (tt, w') ∧
    groups w' !! g = Some G' ∧
    subset_state G' ≠ r ∧
    states w !! subset_state G' = None ∧
    states w' !! subset_state G' = Some c ∧
    states w' !! r = Some c ∧
    trace w' = trace w ++ fan_out (ItemAttr "subset_state") (subsets G) ∧
    subsets G' = subsets G ∧
    members w' = members w ∧
    ∀ c', ∃ w'',
      put_state r c' w' = Some (tt, w'') ∧
      states w'' !! r = Some c' ∧
      groups w'' !! g = Some G' ∧
      states w'' !! subset_state G' = Some c.
Proof.
  intros Hwf HG Hm.
  destruct (wf_group w Hwf other m Hm) as [Go HGo].
  destruct (wf_state w Hwf _ Go HGo) as [c Hc].
  pose proof (paste_run g G other m Go c w HG Hm HGo Hc) as Hrun.
  assert (Hr : subset_state Go < length (states w)) by by eapply lookup_lt_Some.
  eexists _, _, (subset_state Go), c.
  split; [by apply (Pointer__get___run subset_state other m Go)|].
  split; [done|]. split; [exact Hrun|]. simpl.
  split; [apply list_lookup_insert_eq; by eapply lookup_lt_Some|]. simpl.
  split; [lia|].
  split; [by apply lookup_ge_None_2|].
  split; [by apply list_lookup_middle|].
  split; [by apply lookup_app_l_Some|].
  repeat (split; [done|]).
  intros c'. eexists. split; [done|]. simpl.
  split; [apply list_lookup_insert_eq; rewrite length_app; lia|].
  split; [apply list_lookup_insert_eq; by eapply lookup_lt_Some|].
  rewrite list_lookup_insert_ne by lia. by apply list_lookup_middle.
Qed.

Lemma paste_installs_deep_copy_witness :
  wf world_A ∧ groups world_A !! 0 = Some group_A ∧
  members world_A !! 1 = Some (mkGroupedSubset 11 0 None) ∧
  ∃ w' G', SubsetGroup_paste 0 1 world_A = Some (tt, w') ∧
           groups w' !! 0 = Some G' ∧
           states w' !! subset_state G' = Some "x > 3".
Proof.
  split; [exact wf_world_A|]. split; [reflexivity|]. split; [reflexivity|].
  destruct (paste_installs_deep_copy world_A 0 group_A 1 (mkGroupedSubset 11 0 None)
              wf_world_A eq_refl eq_refl)
    as (w' & G' & r & c & Hr & Hc & Hrun & HG' & _ & _ & Hst & _).
  exists w', G'. split; [exact Hrun|]. split; [exact HG'|].
  vm_compute in Hr. injection Hr as <-. vm_compute in Hc. injection Hc as <-.
  exact Hst.
Defined.

(** ** Registering to a data collection *)

Lemma register_populate_run g ds : ∀ w G,
  groups w !! g = Some G → is_Some (_style G) →
  register_populate g ds w =
    Some (tt, mkWorld
                (<[g := mkSubsetGroup (subsets G ++ seq (length (members w)) (length ds))
                                      (subset_state G) (label G) (_style G)]> (groups w))
                (members w ++ ((λ d, mkGroupedSubset d g None) <$> ds))
                (states w) (styles w) (trace w)).
Proof.
  induction ds as [|d ds IH]; intros w G HG Hst.
  - unfold register_populate. simpl. unfold ret. rewrite !app_nil_r.
    rewrite list_insert_id by by destruct G. by rewrite world_eta.
  - unfold register_populate. simpl. rewrite bind_assoc.
    rewrite (bind_run _ _ _ _ _ (GroupedSubset__init___run d g G w HG Hst)).
    rewrite (bind_run _ _ _ _ _
               (subsets_append_run g G (length (members w))
                  (with_members (λ h, h ++ [mkGroupedSubset d g None]) w) HG)).
    fold (register_populate g ds).
    rewrite (IH _ (mkSubsetGroup (subsets G ++ [length (members w)])
                                 (subset_state G) (label G) (_style G)));
      [| by eapply put_group_lookup | done].
    simpl. rewrite list_insert_insert_eq, length_app, <- !app_assoc. simpl.
    by rewrite Nat.add_1_r.
Qed.

Lemma register_attach_run pairs w :
  register_attach pairs w = Some (tt, with_trace (λ t, t ++ attached pairs) w).
Proof.
  unfold register_attach. revert w. induction pairs as [|p pairs IH]; intros w.
  - simpl. unfold ret, with_trace, attached. simpl. by rewrite app_nil_r, world_eta.
  - simpl. unfold Data_add_subset at 1. unfold emit, bind at 1. rewrite IH.
    unfold with_trace, attached. simpl. by rewrite <- app_assoc.
Qed.

Lemma register_until_populated_run g G dc w :
  groups w !! g = Some G → is_Some (_style G) →
  register_until_populated g dc w = Some (tt, populated w g G dc).
Proof.
  intros HG Hst. unfold register_until_populated, SubsetGroup_register_to_hub.
  unfold Hub_subscribe, emit. rewrite bind_assoc. unfold bind at 1. unfold bind at 1.
  rewrite (register_populate_run g (datasets dc) _ G); [|done|done].
  unfold populated, with_trace, subscribed. simpl. by rewrite <- app_assoc.
Qed.

Lemma register_run g G dc w :
  groups w !! g = Some G → is_Some (_style G) →
  SubsetGroup_register g dc w =
    Some (tt, with_trace
                (λ t, t ++ attached
                             (zip (datasets dc)
                                  (subsets G ++ seq (length (members w))
                                                    (length (datasets dc)))))
                (populated w g G dc)).
Proof.
  intros HG Hst. unfold SubsetGroup_register.
  pose proof (register_until_populated_run g G dc w HG Hst) as Hrun.
  unfold register_until_populated in Hrun.
  rewrite <- bind_assoc, (bind_run _ _ _ _ _ Hrun).
  rewrite (bind_run _ _ _ _ _
             (get_group_run g _ (populated w g G dc)
                (put_group_lookup g G _ w HG))).
  simpl. apply register_attach_run.
Qed.



Lemma calls_observed_silent gs ms pairs :
  calls_observed silent gs ms pairs = attached pairs.
Proof.
  unfold calls_observed, attached, silent.
  induction pairs as [|p pairs IH]; [done|].
  rewrite fmap_cons, <- IH. reflexivity.
Qed.

Lemma register_observing_silent g dc w :
  SubsetGroup_register_observing silent g dc w = SubsetGroup_register g dc w.
Proof. reflexivity. Qed.




Lemma wf_world_with_member : wf world_with_member.
Proof. wf_concrete. Qed.

Example world_with_member_built :
  run [NewGroup None; Handle 0 (mkMessage DataCollectionAddMessage 5)] empty_world
    = Some (tt, world_with_member).
Proof. reflexivity. Qed.

(** ** Delegation of [label] and [subset_state] *)

Lemma wf_grouped w : wf w → grouped w.
Proof.
  intros Hwf. apply Forall_lookup. intros s m Hm.
  destruct (wf_group w Hwf s m Hm) as [G HG]. by eapply lookup_lt_Some.
Qed.

Section keeps.
Context {A B : Type} (P : World → Prop).

Lemma keeps_ret (a : A) : keeps P (ret a).
Proof. intros w a' w' [= <- <-]. done. Qed.

Lemma keeps_raise : keeps P (@raise A).
Proof. by intros w a w' [=]. Qed.

Lemma keeps_lift (f : World → option A) : keeps P (λ w, lift (f w) w).
Proof. intros w a w'. unfold lift. destruct (f w); by intros [= <- <-]. Qed.

Lemma keeps_bind (m : M A) (k : A → M B) :
  keeps P m → (∀ a, keeps P (k a)) → keeps P (bind m k).
Proof.
  intros Hm Hk w b w2 (a & w1 & H1 & H2)%bind_inv Hw.
  eapply Hk; [exact H2|]. by eapply Hm.
Qed.

Lemma keeps_for_each (l : list A) (body : A → M unit) :
  (∀ x, keeps P (body x)) → keeps P (for_each l body).
Proof.
  intros Hbody. induction l as [|x l IH]; simpl.
  - intros w a w' [= <- <-]. done.
  - intros w b w2 (a & w1 & H1 & H2)%bind_inv Hw.
    eapply IH; [exact H2|]. by eapply Hbody.
Qed.
End keeps.

Lemma keeps_get_group P g : keeps P (get_group g).
Proof. apply (keeps_lift P (λ w, groups w !! g)). Qed.
Lemma keeps_get_member P s : keeps P (get_member s).
Proof. apply (keeps_lift P (λ w, members w !! s)). Qed.
Lemma keeps_get_state P r : keeps P (get_state r).
Proof. apply (keeps_lift P (λ w, states w !! r)). Qed.
Lemma keeps_get_style_object P v : keeps P (get_style_object v).
Proof. apply (keeps_lift P (λ w, styles w !! v)). Qed.

Lemma keeps_emit e : keeps grouped (emit e).
Proof. by intros w a w' [= _ <-]. Qed.
Lemma keeps_put_state r c : keeps grouped (put_state r c).
Proof. by intros w a w' [= _ <-]. Qed.
Lemma keeps_new_state c : keeps grouped (new_state c).
Proof. by intros w a w' [= _ <-]. Qed.
Lemma keeps_new_style v : keeps grouped (new_style v).
Proof. by intros w a w' [= _ <-]. Qed.

Lemma keeps_put_group g G : keeps grouped (put_group g G).
Proof.
  intros w a w' [= _ <-]. unfold grouped. simpl. by rewrite length_insert.
Qed.

Lemma keeps_new_group G : keeps grouped (new_group G).
Proof.
  intros w a w' [= _ <-] Hw. unfold grouped in *. simpl. rewrite length_app.
  eapply Forall_impl; [exact Hw|]. intros m. simpl. lia.
Qed.

Lemma keeps_put_member_same_group (s : Ref) (o : option Ref) :
  keeps grouped (do m <- get_member s; put_member s (mkGroupedSubset (data m) (group m) o)).
Proof.
  intros w a w' (m' & w1 & [Hm ->]%get_member_inv & [= <- <-])%bind_inv Hw.
  unfold grouped in *. simpl. apply Forall_insert; [done|]. simpl.
  by eapply (proj1 (Forall_lookup _ _) Hw).
Qed.

Lemma keeps_GroupedSubset_set_style s v : keeps grouped (GroupedSubset_set_style s v).
Proof. apply (keeps_put_member_same_group s (Some v)). Qed.

Lemma keeps_clear_override_style s : keeps grouped (GroupedSubset_clear_override_style s).
Proof.
  intros w a w' (m & w1 & [Hm ->]%get_member_inv & Hrun)%bind_inv Hw.
  destruct (_style_override m); [|by injection Hrun as _ <-].
  apply bind_inv in Hrun as (? & w2 & [= _ <-] & [= _ <-]).
  unfold grouped in *. simpl. apply Forall_insert; [done|]. simpl.
  by eapply (proj1 (Forall_lookup _ _) Hw).
Qed.

Lemma keeps_GroupedSubset__init__ d g : keeps grouped (GroupedSubset__init__ d g).
Proof.
  intros w a w' (G & w1 & [HG ->]%get_group_inv & Hrun)%bind_inv Hw.
  destruct (_style G); [|done]. injection Hrun as _ <-.
  unfold grouped in *. simpl. apply Forall_app. split; [done|].
  apply Forall_singleton. simpl. by eapply lookup_lt_Some.
Qed.

Create HintDb keeps discriminated.
#[local] Hint Resolve keeps_ret keeps_raise keeps_get_group keeps_get_member
  keeps_get_state keeps_get_style_object keeps_emit keeps_put_state keeps_new_state
  keeps_new_style keeps_put_group keeps_new_group keeps_GroupedSubset_set_style
  keeps_clear_override_style keeps_GroupedSubset__init__ : keeps.

(** Goes through the binds, loops and case distinctions of a computation. *)
Ltac keeps_step :=
  first [ solve [auto with keeps] | lazymatch goal with
  | |- keeps _ (bind _ _) => apply keeps_bind; [|intros ?]
  | |- keeps _ (for_each _ _) => apply keeps_for_each; intros ?
  | |- keeps _ (match ?x with _ => _ end) => destruct x
  | |- keeps _ (λ w, lift _ w) => apply keeps_lift
  | |- keeps ?P (lift ?o) => apply (keeps_lift P (λ _, o))
  end ].
Ltac keeps_tac := repeat keeps_step.

Lemma keeps_clear_overrides g : keeps grouped (SubsetGroup__clear_overrides g).
Proof. unfold SubsetGroup__clear_overrides. keeps_tac. Qed.

Lemma keeps_broadcast g item : keeps grouped (SubsetGroup_broadcast g item).
Proof.
  unfold SubsetGroup_broadcast, Subset_broadcast. destruct item.
  - keeps_tac.
  - apply keeps_clear_overrides.
Qed.

#[local] Hint Resolve keeps_clear_overrides keeps_broadcast : keeps.

Lemma keeps_setattr g a : keeps grouped (SubsetGroup__setattr__ g a).
Proof. unfold SubsetGroup__setattr__, object__setattr__. keeps_tac. Qed.

#[local] Hint Resolve keeps_setattr : keeps.

Lemma keeps_subsets_append g s : keeps grouped (subsets_append g s).
Proof. unfold subsets_append. keeps_tac. Qed.

Lemma keeps_subsets_remove g s : keeps grouped (subsets_remove g s).
Proof. unfold subsets_remove. keeps_tac. Qed.

#[local] Hint Resolve keeps_subsets_append keeps_subsets_remove : keeps.

Lemma keeps_mutate μ : keeps grouped (mutate μ).
Proof.
  destruct μ; simpl;
    unfold SubsetGroup__init__, SubsetState_new, VisualAttributes__setattr__,
      SubsetGroup_paste, GroupedSubset_subset_state, Pointer__get__, SubsetState_copy,
      SubsetGroup_register, SubsetGroup_register_to_hub, Hub_subscribe,
      register_populate, register_attach,
      SubsetGroup_handle, SubsetGroup__add_data, SubsetGroup__remove_data,
      Data_add_subset, GroupedSubset_set_label, GroupedSubset_set_subset_state,
      Pointer__set__;
    keeps_tac.
Qed.

Lemma keeps_run μs : keeps grouped (run μs).
Proof. apply keeps_for_each, keeps_mutate. Qed.

Lemma set_label_run s m G v w :
  members w !! s = Some m → groups w !! group m = Some G →
  GroupedSubset_set_label s v w =
    Some (tt, mkWorld
                (<[group m := mkSubsetGroup (subsets G) (subset_state G) v (_style G)]>
                   (groups w))
                (members w) (states w) (styles w)
                (trace w ++ fan_out (ItemAttr "label") (subsets G))).
Proof.
  intros Hm HG. unfold GroupedSubset_set_label, Pointer__set__.
  rewrite (bind_run _ _ _ _ _ (get_member_run _ _ _ Hm)).
  by apply setattr_label_run.
Qed.

Lemma set_subset_state_run s m G v w :
  members w !! s = Some m → groups w !! group m = Some G →
  GroupedSubset_set_subset_state s v w =
    Some (tt, mkWorld
                (<[group m := mkSubsetGroup (subsets G) v (label G) (_style G)]>
                   (groups w))
                (members w) (states w) (styles w)
                (trace w ++ fan_out (ItemAttr "subset_state") (subsets G))).
Proof.
  intros Hm HG. unfold GroupedSubset_set_subset_state, Pointer__set__.
  rewrite (bind_run _ _ _ _ _ (get_member_run _ _ _ Hm)).
  by apply setattr_subset_state_run.
Qed.

(** C1. After any sequence of mutations of a well-formed world, a member's
    [label] and [subset_state] read as the current [label] and
    [subset_state] of its group, so all members of a group read the same;
    a write of either through the member sets the attribute of the group
    (and notifies the group's members), so that every member of that group
    then reads the value written. *)
Theorem member_label_and_state_are_the_groups (w : World) (μs : list Mutation) (w' : World) (s : Ref) (m : GroupedSubset) :
  wf w →
  run μs w = Some (tt, w') →
  members w' !! s = Some m →
  ∃ G,
    groups w' !! group m = Some G ∧
    GroupedSubset_label s w' = Some (label G, w') ∧
    GroupedSubset_subset_state s w' = Some (subset_state G, w') ∧
    (∀ s' m', members w' !! s' = Some m' → group m' = group m →
              GroupedSubset_label s' w' = GroupedSubset_label s w' ∧
              GroupedSubset_subset_state s' w' = GroupedSubset_subset_state s w') ∧
    (∀ v, ∃ w'' G'',
       GroupedSubset_set_label s v w' = Some (tt, w'') ∧
       groups w'' !! group m = Some G'' ∧
       label G'' = v ∧ subset_state G'' = subset_state G ∧
       trace w'' = trace w' ++ fan_out (ItemAttr "label") (subsets G) ∧
       ∀ s' m', members w' !! s' = Some m' → group m' = group m →
                GroupedSubset_label s' w'' = Some (v, w'')) ∧
    (∀ v, ∃ w'' G'',
       GroupedSubset_set_subset_state s v w' = Some (tt, w'') ∧
       groups w'' !! group m = Some G'' ∧
       subset_state G'' = v ∧ label G'' = label G ∧
       trace w'' = trace w' ++ fan_out (ItemAttr "subset_state") (subsets G) ∧
       ∀ s' m', members w' !! s' = Some m' → group m' = group m →
                GroupedSubset_subset_state s' w'' = Some (v, w'')).
Proof.
  intros Hwf Hrun Hm.
  pose proof (keeps_run μs w tt w' Hrun (wf_grouped w Hwf)) as Hgr.
  pose proof (proj1 (Forall_lookup _ _) Hgr s m Hm) as Hlt. simpl in Hlt.
  destruct (lookup_lt_is_Some_2 _ _ Hlt) as [G HG].
  exists G. split; [done|].
  split; [by apply (Pointer__get___run label s m G)|].
  split; [by apply (Pointer__get___run subset_state s m G)|].
  split.
  { intros s' m' Hm' Hg. unfold GroupedSubset_label, GroupedSubset_subset_state.
    rewrite !(Pointer__get___run _ s m G) by done.
    by rewrite !(Pointer__get___run _ s' m' G) by (done || by rewrite Hg). }
  split.
  - intros v. eexists _, _. split; [by apply (set_label_run s m G)|]. simpl.
    split; [by apply list_lookup_insert_eq|]. simpl. repeat (split; [done|]).
    intros s' m' Hm' Hg.
    apply (Pointer__get___run label s' m'
             (mkSubsetGroup (subsets G) (subset_state G) v (_style G))); [done|].
    simpl. rewrite Hg. by apply list_lookup_insert_eq.
  - intros v. eexists _, _. split; [by apply (set_subset_state_run s m G)|]. simpl.
    split; [by apply list_lookup_insert_eq|]. simpl. repeat (split; [done|]).
    intros s' m' Hm' Hg.
    apply (Pointer__get___run subset_state s' m'
             (mkSubsetGroup (subsets G) v (label G) (_style G))); [done|].
    simpl. rewrite Hg. by apply list_lookup_insert_eq.
Qed.

Lemma member_label_and_state_are_the_groups_witness :
  wf world_A ∧
  ∃ w',
    run [Assign_attr 0 (Set_label (Some "B"));
         Handle 0 (mkMessage DataCollectionAddMessage 12);
         Paste 0 1] world_A = Some (tt, w') ∧
    members w' !! 2 = Some (mkGroupedSubset 12 0 None) ∧
    GroupedSubset_label 2 w' = Some (Some "B", w') ∧
    GroupedSubset_subset_state 2 w' = Some (1, w').
Proof.
  split; [exact wf_world_A|].
  eexists. split; [vm_compute; reflexivity|]. split; [reflexivity|].
  match goal with
  | |- GroupedSubset_label 2 ?w' = _ ∧ _ =>
      destruct (member_label_and_state_are_the_groups world_A
                  [Assign_attr 0 (Set_label (Some "B"));
                   Handle 0 (mkMessage DataCollectionAddMessage 12);
                   Paste 0 1]
                  w' 2 (mkGroupedSubset 12 0 None) wf_world_A eq_refl eq_refl)
        as (G & HG & Hlabel & Hstate & _)
  end.
  vm_compute in HG. injection HG as <-. split; [exact Hlabel|exact Hstate].
Defined.


(** ** Well-formedness is an invariant *)

Lemma wf_empty_world : wf empty_world.
Proof. constructor; simpl; intros; by simplify_eq/=. Qed.

(** [wf] looks at the groups, the members, and which states exist. *)
Lemma wf_same_objects w w' :
  groups w' = groups w → members w' = members w →
  (∀ r, is_Some (states w !! r) → is_Some (states w' !! r)) →
  wf w → wf w'.
Proof.
  intros Hg Hm Hs [H1 H2 H3 H4 H5].
  constructor; rewrite ?Hg, ?Hm; eauto.
Qed.

Lemma wf_members_same_group w w' :
  groups w' = groups w → states w' = states w →
  Forall2 (λ m m', group m = group m') (members w) (members w') →
  wf w → wf w'.
Proof.
  intros Hg Hs Hm [H1 H2 H3 H4 H5].
  constructor; rewrite ?Hg, ?Hs; eauto.
  - intros g G s HG Hin. destruct (H1 g G s HG Hin) as (m & Hsm & Hgm).
    destruct (Forall2_lookup_l _ _ _ _ _ Hm Hsm) as (m' & Hsm' & Heq).
    exists m'. split; [done|]. by rewrite <- Heq.
  - intros s m' Hsm'.
    destruct (Forall2_lookup_r _ _ _ _ _ Hm Hsm') as (m & Hsm & Heq).
    rewrite <- Heq. by eapply H3.
Qed.

Lemma wf_put_group w w' g G G' :
  wf w → groups w !! g = Some G →
  groups w' = <[g := G']> (groups w) → members w' = members w → states w' = states w →
  (∀ s, s ∈ subsets G' → ∃ m, members w !! s = Some m ∧ group m = g) →
  NoDup (subsets G') → is_Some (_style G') → is_Some (states w !! subset_state G') →
  wf w'.
Proof.
  intros [H1 H2 H3 H4 H5] HG Hg Hm Hs Hsub Hnd Hst Hss.
  assert (Hlt : g < length (groups w)) by by eapply lookup_lt_Some.
  assert (Hcase : ∀ g0 G0, <[g := G']> (groups w) !! g0 = Some G0 →
            (g0 = g ∧ G0 = G') ∨ (g0 ≠ g ∧ groups w !! g0 = Some G0)).
  { intros g0 G0 H0. destruct (decide (g0 = g)) as [->|Hne].
    - rewrite list_lookup_insert_eq in H0 by done. left. by injection H0 as <-.
    - rewrite list_lookup_insert_ne in H0 by done. by right. }
  constructor; rewrite ?Hg, ?Hm, ?Hs.
  - intros g0 G0 s H0 Hin. destruct (Hcase g0 G0 H0) as [[-> ->]|[_ H0']]; eauto.
  - intros g0 G0 H0. destruct (Hcase g0 G0 H0) as [[-> ->]|[_ H0']]; eauto.
  - intros s m Hsm. apply lookup_lt_is_Some. rewrite length_insert.
    apply lookup_lt_is_Some. by eapply H3.
  - intros g0 G0 H0. destruct (Hcase g0 G0 H0) as [[-> ->]|[_ H0']]; eauto.
  - intros g0 G0 H0. destruct (Hcase g0 G0 H0) as [[-> ->]|[_ H0']]; eauto.
Qed.

Lemma wf_new_member w w' m :
  wf w → is_Some (groups w !! group m) →
  groups w' = groups w → members w' = members w ++ [m] → states w' = states w →
  wf w'.
Proof.
  intros [H1 H2 H3 H4 H5] HG Hg Hm Hs.
  constructor; rewrite ?Hg, ?Hm, ?Hs; eauto.
  - intros g G s HG' Hin. destruct (H1 g G s HG' Hin) as (m0 & Hsm & Hgm).
    exists m0. split; [|done]. by apply lookup_app_l_Some.
  - intros s m0 [Hsm|[_ Hsm]]%lookup_app_Some; [by eapply H3|].
    destruct (s - length (members w)); simplify_eq/=. done.
Qed.

Lemma wf_new_group w w' G :
  wf w →
  groups w' = groups w ++ [G] → members w' = members w →
  (∀ r, is_Some (states w !! r) → is_Some (states w' !! r)) →
  subsets G = [] → is_Some (_style G) → is_Some (states w' !! subset_state G) →
  wf w'.
Proof.
  intros [H1 H2 H3 H4 H5] Hg Hm Hs Hsub Hst Hss.
  assert (Hcase : ∀ g0 G0, (groups w ++ [G]) !! g0 = Some G0 →
            G0 = G ∨ groups w !! g0 = Some G0).
  { intros g0 G0 [H0|[_ H0]]%lookup_app_Some; [by right|].
    destruct (g0 - length (groups w)); simplify_eq/=. by left. }
  constructor; rewrite ?Hg, ?Hm.
  - intros g0 G0 s H0 Hin. destruct (Hcase g0 G0 H0) as [->|H0']; [|by eauto].
    rewrite Hsub in Hin. by apply elem_of_nil in Hin.
  - intros g0 G0 H0. destruct (Hcase g0 G0 H0) as [->|H0']; [|by eauto].
    rewrite Hsub. constructor.
  - intros s m Hsm. destruct (H3 s m Hsm) as [G0 HG0].
    exists G0. by apply lookup_app_l_Some.
  - intros g0 G0 H0. destruct (Hcase g0 G0 H0) as [->|H0']; eauto.
  - intros g0 G0 H0. destruct (Hcase g0 G0 H0) as [->|H0']; eauto.
Qed.

Lemma keeps_wf_emit e : keeps wf (emit e).
Proof. intros w a w' [= _ <-]. by apply wf_same_objects. Qed.

Lemma keeps_wf_new_style v : keeps wf (new_style v).
Proof. intros w a w' [= _ <-]. by apply wf_same_objects. Qed.

Lemma keeps_wf_new_state c : keeps wf (new_state c).
Proof.
  intros w a w' [= _ <-]. apply wf_same_objects; [done|done|]. simpl.
  intros r [c' Hr]. exists c'. by apply lookup_app_l_Some.
Qed.

Lemma keeps_wf_put_state r c : keeps wf (put_state r c).
Proof.
  intros w a w' [= _ <-]. apply wf_same_objects; [done|done|]. simpl.
  intros r' Hr'. apply lookup_lt_is_Some. rewrite length_insert.
  by apply lookup_lt_is_Some.
Qed.

Lemma Forall2_insert_same_group (h : list GroupedSubset) s m m' :
  h !! s = Some m → group m' = group m →
  Forall2 (λ m1 m2, group m1 = group m2) h (<[s := m']> h).
Proof.
  intros Hs Hg. apply Forall2_same_length_lookup_2; [by rewrite length_insert|].
  intros i m1 m2 H1 H2. destruct (decide (i = s)) as [->|Hne].
  - rewrite list_lookup_insert_eq in H2 by by eapply lookup_lt_Some. naive_solver.
  - rewrite list_lookup_insert_ne in H2 by done. naive_solver.
Qed.

Lemma keeps_wf_set_style s v : keeps wf (GroupedSubset_set_style s v).
Proof.
  intros w a w' (m & w1 & [Hm ->]%get_member_inv & [= _ <-])%bind_inv.
  apply wf_members_same_group; [done|done|]. simpl.
  by apply (Forall2_insert_same_group _ s m).
Qed.

Lemma keeps_wf_clear_override_style s : keeps wf (GroupedSubset_clear_override_style s).
Proof.
  intros w a w' Hrun Hwf.
  destruct (members w !! s) as [m|] eqn:Hm.
  - rewrite (clear_override_style_run s m w Hm) in Hrun. injection Hrun as _ <-.
    destruct (_style_override m); [|done].
    apply (wf_members_same_group w); [done|done| |done]. simpl.
    by apply (Forall2_insert_same_group _ s m).
  - unfold GroupedSubset_clear_override_style, bind, get_member, lift in Hrun.
    by rewrite Hm in Hrun.
Qed.

Lemma keeps_wf_GroupedSubset__init__ d g : keeps wf (GroupedSubset__init__ d g).
Proof.
  intros w a w' (G & w1 & [HG ->]%get_group_inv & Hrun)%bind_inv Hwf.
  destruct (_style G); [|done]. injection Hrun as _ <-.
  by apply (wf_new_member w _ (mkGroupedSubset d g None)).
Qed.

#[local] Hint Resolve keeps_wf_emit keeps_wf_new_style keeps_wf_new_state
  keeps_wf_put_state keeps_wf_set_style keeps_wf_clear_override_style
  keeps_wf_GroupedSubset__init__ : keeps.

Lemma keeps_wf_clear_overrides g : keeps wf (SubsetGroup__clear_overrides g).
Proof. unfold SubsetGroup__clear_overrides. keeps_tac. Qed.

Lemma keeps_wf_broadcast g item : keeps wf (SubsetGroup_broadcast g item).
Proof.
  unfold SubsetGroup_broadcast, Subset_broadcast. destruct item.
  - keeps_tac.
  - apply keeps_wf_clear_overrides.
Qed.

#[local] Hint Resolve keeps_wf_clear_overrides keeps_wf_broadcast : keeps.

Lemma list_remove_sublist s l l' : list_remove s l = Some l' → l' `sublist_of` l.
Proof.
  revert l'. induction l as [|x l IH]; intros l'; simpl; [done|].
  destruct (GroupedSubset__eq__ x s).
  - intros [= <-]. by apply sublist_cons.
  - destruct (list_remove s l) as [l0|]; [|done]. simpl. intros [= <-].
    by apply sublist_skip, IH.
Qed.

Lemma keeps_wf_subsets_remove g s : keeps wf (subsets_remove g s).
Proof.
  intros w a w' (G & w1 & [HG ->]%get_group_inv & Hrun)%bind_inv Hwf.
  apply bind_inv in Hrun as (l & w2 & Hl & [= _ <-]).
  unfold lift in Hl. destruct (list_remove s (subsets G)) as [l0|] eqn:Hrm; [|done].
  injection Hl as <- <-. apply list_remove_sublist in Hrm.
  apply (wf_put_group w _ g G (mkSubsetGroup l0 (subset_state G) (label G) (_style G)));
    try done; simpl.
  - intros s' Hin. eapply (wf_subsets w Hwf g G); [done|].
    by apply (sublist_subseteq _ _ Hrm).
  - eapply sublist_NoDup; [|exact Hrm]. by eapply wf_nodup.
  - by eapply wf_style.
  - by eapply wf_state.
Qed.

Lemma wf_subsets_append w g s m w' :
  wf w → members w !! s = Some m → group m = g →
  (∀ G, groups w !! g = Some G → s ∉ subsets G) →
  subsets_append g s w = Some (tt, w') → wf w'.
Proof.
  intros Hwf Hm Hgm Hnin (G & w1 & [HG ->]%get_group_inv & [= <-])%bind_inv.
  apply (wf_put_group w _ g G (mkSubsetGroup (subsets G ++ [s]) (subset_state G)
                                             (label G) (_style G)));
    try done; simpl.
  - intros s' [Hin| ->%list_elem_of_singleton]%elem_of_app; [|by eauto].
    by eapply (wf_subsets w Hwf g G).
  - apply NoDup_app. split; [by eapply wf_nodup|]. split; [|apply NoDup_singleton].
    intros s' Hin ->%list_elem_of_singleton. by eapply Hnin.
  - by eapply wf_style.
  - by eapply wf_state.
Qed.

#[local] Hint Resolve keeps_wf_subsets_remove : keeps.

Lemma GroupedSubset__init___inv d g w s w1 :
  GroupedSubset__init__ d g w = Some (s, w1) →
  s = length (members w) ∧
  w1 = with_members (λ h, h ++ [mkGroupedSubset d g None]) w.
Proof.
  intros (G & w0 & [HG ->]%get_group_inv & Hrun)%bind_inv.
  destruct (_style G); [|done]. by injection Hrun as <- <-.
Qed.

(** A member that was just created is appended to the list of its group. *)
Lemma wf_init_then_append w d g s w1 w2 w' :
  wf w →
  GroupedSubset__init__ d g w = Some (s, w1) →
  groups w2 = groups w1 → members w2 = members w1 →
  (∀ r, is_Some (states w1 !! r) → is_Some (states w2 !! r)) →
  subsets_append g s w2 = Some (tt, w') →
  wf w'.
Proof.
  intros Hwf Hinit Hg Hm Hs Happ.
  pose proof (keeps_wf_GroupedSubset__init__ d g w s w1 Hinit Hwf) as Hwf1.
  apply GroupedSubset__init___inv in Hinit as [-> ->].
  apply (wf_subsets_append w2 g (length (members w)) (mkGroupedSubset d g None));
    [by eapply wf_same_objects | | done | | done].
  - rewrite Hm. simpl. by apply list_lookup_middle.
  - rewrite Hg. simpl. intros G HG Hin.
    destruct (wf_subsets w Hwf g G _ HG Hin) as (m & Hlen & _).
    apply lookup_lt_Some in Hlen. lia.
Qed.

Lemma keeps_wf_create_and_append g d :
  keeps wf (do s <- GroupedSubset__init__ d g; subsets_append g s).
Proof.
  intros w a w' (s & w1 & Hinit & Happ)%bind_inv Hwf. destruct a.
  by apply (wf_init_then_append w d g s w1 w1 w').
Qed.

Lemma keeps_wf_add_data g d : keeps wf (SubsetGroup__add_data g d).
Proof.
  intros w a w' (s & w1 & Hinit & Hrest)%bind_inv Hwf. destruct a.
  apply bind_inv in Hrest as (? & w2 & [= _ <-] & Happ).
  by apply (wf_init_then_append w d g s w1
              (with_trace (λ t, t ++ [DataAddSubset d s]) w1) w').
Qed.

Lemma keeps_wf_remove_data g d : keeps wf (SubsetGroup__remove_data g d).
Proof. unfold SubsetGroup__remove_data. keeps_tac. Qed.

#[local] Hint Resolve keeps_wf_create_and_append keeps_wf_add_data
  keeps_wf_remove_data : keeps.

Lemma keeps_wf_handle g x : keeps wf (SubsetGroup_handle g x).
Proof. unfold SubsetGroup_handle. keeps_tac. Qed.

Lemma keeps_wf_register g dc : keeps wf (SubsetGroup_register g dc).
Proof.
  unfold SubsetGroup_register, SubsetGroup_register_to_hub, Hub_subscribe,
    register_populate, register_attach, Data_add_subset.
  keeps_tac.
Qed.

Lemma keeps_wf_VisualAttributes__setattr__ v : keeps wf (VisualAttributes__setattr__ v).
Proof. unfold VisualAttributes__setattr__. keeps_tac. Qed.

(** An assignment of a client keeps the world well-formed. *)
Lemma wf_setattr w g a w' :
  wf w → client_assign w a →
  SubsetGroup__setattr__ g a w = Some (tt, w') → wf w'.
Proof.
  intros Hwf Hclient ([] & w1 & Hobj & Hrest)%bind_inv.
  assert (Hwf1 : wf w1).
  { apply bind_inv in Hobj as (G & w0 & [HG ->]%get_group_inv & Hput).
    assert (Hupd : ∀ G' w2, subsets G' = subsets G → is_Some (_style G') →
              is_Some (states w !! subset_state G') →
              put_group g G' w = Some (tt, w2) → wf w2).
    { intros G' w2 Hsub Hst Hss [= <-].
      apply (wf_put_group w _ g G G'); try done; rewrite Hsub.
      - intros s Hin. by eapply (wf_subsets w Hwf g G).
      - by eapply wf_nodup. }
    destruct a as [l|r|lbl|v|o]; simpl in Hclient; try done.
    - eapply Hupd; [| | |exact Hput]; simpl; [done|by eapply wf_style|done].
    - eapply Hupd; [| | |exact Hput]; simpl;
        [done|by eapply wf_style|by eapply wf_state].
    - apply bind_inv in Hput as ([] & w2 & Hput & Hclear).
      eapply keeps_wf_clear_overrides; [exact Hclear|].
      eapply Hupd; [| | |exact Hput]; simpl; [done|by eexists|by eapply wf_state]. }
  destruct (bool_decide _).
  - by eapply keeps_wf_broadcast.
  - by injection Hrest as <-.
Qed.

Lemma Pointer__get___inv {A} (field : SubsetGroup → A) s w x w1 :
  Pointer__get__ field s w = Some (x, w1) → w1 = w.
Proof.
  intros (m & w0 & [Hm ->]%get_member_inv & Hrest)%bind_inv.
  apply bind_inv in Hrest as (G & w2 & [HG ->]%get_group_inv & [= _ <-]). done.
Qed.

Lemma keeps_wf_paste g other : keeps wf (SubsetGroup_paste g other).
Proof.
  intros w a w' (r & w1 & Hread & Hrest)%bind_inv Hwf. destruct a.
  apply Pointer__get___inv in Hread as ->.
  apply bind_inv in Hrest as (state & w2 & Hcopy & Hset).
  apply bind_inv in Hcopy as (c & w0 & [Hc ->]%get_state_inv & [= <- <-]).
  eapply (wf_setattr _ g (Set_subset_state (length (states w)))); [| |exact Hset].
  - by eapply (keeps_wf_new_state c w (length (states w))).
  - simpl. exists c. by apply list_lookup_middle.
Qed.

Lemma wf_Pointer__set__ w a s w' :
  wf w → client_assign w a → Pointer__set__ a s w = Some (tt, w') → wf w'.
Proof.
  intros Hwf Hclient (m & w0 & [Hm ->]%get_member_inv & Hset)%bind_inv.
  by eapply wf_setattr.
Qed.

(** ** Creating a group *)

Lemma clear_overrides_no_members g G w :
  groups w !! g = Some G → subsets G = [] →
  SubsetGroup__clear_overrides g w = Some (tt, w).
Proof.
  intros HG Hsub. unfold SubsetGroup__clear_overrides.
  rewrite (bind_run _ _ _ _ _ (get_group_run _ _ _ HG)). by rewrite Hsub.
Qed.

Lemma broadcast_no_members g G item w :
  groups w !! g = Some G → subsets G = [] →
  SubsetGroup_broadcast g item w = Some (tt, w).
Proof.
  intros HG Hsub. destruct item as [name|v].
  - rewrite (broadcast_attr_run g G name w HG), Hsub.
    unfold with_trace, fan_out. simpl. by rewrite app_nil_r, world_eta.
  - by apply (clear_overrides_no_members g G).
Qed.

Lemma SubsetGroup__init___run lbl w :
  SubsetGroup__init__ lbl w =
    Some (length (groups w),
          mkWorld (groups w ++ [mkSubsetGroup [] (length (states w)) lbl
                                              (Some (length (styles w)))])
                  (members w) (states w ++ [""])
                  (styles w ++ [mkVisualAttributes (Some (length (groups w)))])
                  (trace w)).
Proof.
  unfold SubsetGroup__init__, SubsetState_new, new_state, new_group, new_style.
  do 3 unfold bind at 1. simpl.
  set (g := length (groups w)).
  set (G' := mkSubsetGroup [] (length (states w)) lbl (Some (length (styles w)))).
  set (w' := mkWorld (groups w ++ [G']) (members w) (states w ++ [""])
                     (styles w ++ [mkVisualAttributes (Some g)]) (trace w)).
  assert (HG' : groups w' !! g = Some G') by by apply list_lookup_middle.
  assert (Hv : VisualAttributes__setattr__ (length (styles w)) w' = Some (tt, w')).
  { unfold VisualAttributes__setattr__, get_style_object, bind, lift. simpl.
    rewrite list_lookup_middle by done. simpl.
    by apply (broadcast_no_members g G'). }
  set (G0 := mkSubsetGroup [] (length (states w)) lbl None).
  set (w0 := with_styles (λ h, h ++ [mkVisualAttributes (Some g)])
               (with_groups (λ h, h ++ [G0]) (with_states (λ h, h ++ [""]) w))).
  assert (HG0 : groups w0 !! g = Some G0) by by apply list_lookup_middle.
  assert (Heq : with_groups (λ h, <[g := G']> h) w0 = w').
  { unfold w', w0, with_groups, with_styles, with_states. simpl. f_equal.
    unfold g. rewrite (insert_app_r_alt _ _ (length (groups w))) by done.
    by rewrite Nat.sub_diag. }
  assert (Hset : SubsetGroup__setattr__ g (Set_style (length (styles w))) w0
                 = Some (tt, w')).
  { unfold SubsetGroup__setattr__, object__setattr__.
    rewrite bind_assoc, (bind_run _ _ _ _ _ (get_group_run _ _ _ HG0)).
    rewrite bind_assoc. unfold put_group at 1. unfold bind at 1.
    simpl. fold G'. rewrite Heq.
    rewrite (bind_run _ _ _ _ _ (clear_overrides_no_members g G' w' HG' eq_refl)).
    simpl. by apply (broadcast_no_members g G'). }
  rewrite (bind_run _ _ _ _ _ Hset).
  by rewrite !(bind_run _ _ _ _ _ Hv).
Qed.

Example SubsetGroup__init___empty_world :
  SubsetGroup__init__ (Some "A") empty_world = Some (0, world_new).
Proof. reflexivity. Qed.

Lemma wf_SubsetGroup__init__ lbl w g w' :
  wf w → SubsetGroup__init__ lbl w = Some (g, w') → wf w'.
Proof.
  intros Hwf Hrun. rewrite SubsetGroup__init___run in Hrun. injection Hrun as _ <-.
  eapply (wf_new_group w); [done|done|done| |done|by eexists|]; simpl.
  - intros r [c Hr]. exists c. by apply lookup_app_l_Some.
  - exists "". by apply list_lookup_middle.
Qed.

(** Every mutation of a client keeps the world well-formed. *)
Lemma wf_mutate w μ w' :
  wf w → client w μ → mutate μ w = Some (tt, w') → wf w'.
Proof.
  intros Hwf Hclient Hrun. destruct μ; simpl in *.
  - apply bind_inv in Hrun as (g & w1 & Hinit & [= <-]).
    by eapply wf_SubsetGroup__init__.
  - apply bind_inv in Hrun as (r & w1 & Hnew & [= <-]).
    by eapply keeps_wf_new_state.
  - apply bind_inv in Hrun as (r & w1 & Hnew & [= <-]).
    by eapply keeps_wf_new_style.
  - by eapply wf_setattr.
  - by eapply keeps_wf_paste.
  - by eapply keeps_wf_register.
  - by eapply keeps_wf_handle.
  - by eapply keeps_wf_broadcast.
  - by eapply keeps_wf_VisualAttributes__setattr__.
  - by eapply keeps_wf_put_state.
  - by eapply keeps_wf_set_style.
  - by eapply keeps_wf_clear_override_style.
  - by eapply (wf_Pointer__set__ w (Set_label v)).
  - by eapply (wf_Pointer__set__ w (Set_subset_state v)).
Qed.

(** Every world a client can build is well-formed. *)
Lemma reachable_wf w : reachable w → wf w.
Proof.
  induction 1 as [|w μ w' _ IH Hclient Hrun]; [apply wf_empty_world|].
  by eapply wf_mutate.
Qed.

(** * Further properties *)

#[local] Arguments SubsetGroup__init__ : simpl never.
#[local] Arguments SubsetGroup_register : simpl never.
#[local] Arguments SubsetGroup__add_data : simpl never.
#[local] Arguments SubsetGroup__remove_data : simpl never.
#[local] Arguments SubsetGroup_paste : simpl never.

(** ** Creating and registering a group *)

Lemma SubsetGroup_style_run g G w :
  groups w !! g = Some G → SubsetGroup_style g w = Some (_style G, w).
Proof.
  intros HG. unfold SubsetGroup_style.
  by rewrite (bind_run _ _ _ _ _ (get_group_run _ _ _ HG)).
Qed.

(** X1. [SubsetGroup.__init__] succeeds in every world: it makes a group
    that no reference named before, without members, with the label given,
    a new state object with empty criteria and a new style object whose
    parent is the group; it records no notification and leaves the groups,
    states and members that existed as they were. *)
Theorem init_creates_empty_group (w : World) (lbl : option string) :
  ∃ g w' G v,
    SubsetGroup__init__ lbl w = Some (g, w') ∧
    groups w !! g = None ∧ groups w' !! g = Some G ∧
    subsets G = [] ∧ label G = lbl ∧ _style G = Some v ∧
    SubsetGroup_style g w' = Some (Some v, w') ∧
    styles w !! v = None ∧ styles w' !! v = Some (mkVisualAttributes (Some g)) ∧
    states w !! subset_state G = None ∧ states w' !! subset_state G = Some "" ∧
    (∀ g' G', groups w !! g' = Some G' → groups w' !! g' = Some G') ∧
    (∀ r c, states w !! r = Some c → states w' !! r = Some c) ∧
    members w' = members w ∧ trace w' = trace w ∧
    (wf w → wf w').
Proof.
  eexists _, _, (mkSubsetGroup [] (length (states w)) lbl (Some (length (styles w)))),
    (length (styles w)).
  split; [apply SubsetGroup__init___run|]. simpl.
  assert (Hg : (groups w ++ [mkSubsetGroup [] (length (states w)) lbl
                               (Some (length (styles w)))]) !! length (groups w)
               = Some (mkSubsetGroup [] (length (states w)) lbl
                                     (Some (length (styles w)))))
    by by apply list_lookup_middle.
  split; [by apply lookup_ge_None_2|]. split; [done|].
  do 3 (split; [done|]).
  split; [by apply (SubsetGroup_style_run _ (mkSubsetGroup [] (length (states w)) lbl
                                               (Some (length (styles w)))))|].
  split; [by apply lookup_ge_None_2|]. split; [by apply list_lookup_middle|].
  split; [by apply lookup_ge_None_2|]. split; [by apply list_lookup_middle|].
  split; [by intros g' G' HG'; apply lookup_app_l_Some|].
  split; [by intros r c Hr; apply lookup_app_l_Some|].
  do 2 (split; [done|]).
  intros Hwf. eapply wf_SubsetGroup__init__; [done|]. apply SubsetGroup__init___run.
Qed.

Lemma omap_data_of_new_members (h : list GroupedSubset) (g : Ref) (ds : list Ref) :
  omap (λ s, data <$> (h ++ ((λ d, mkGroupedSubset d g None) <$> ds)) !! s)
       (seq (length h) (length ds)) = ds.
Proof.
  revert h. induction ds as [|d ds IH]; intros h; [done|]. simpl.
  rewrite list_lookup_middle by done. simpl. f_equal.
  specialize (IH (h ++ [mkGroupedSubset d g None])).
  rewrite length_app, Nat.add_1_r, <- app_assoc in IH. done.
Qed.

Lemma lookup_new_member (h : list GroupedSubset) (g : Ref) (ds : list Ref) s :
  s ∈ seq (length h) (length ds) →
  ∃ d, ds !! (s - length h) = Some d ∧
       (h ++ ((λ d, mkGroupedSubset d g None) <$> ds)) !! s
         = Some (mkGroupedSubset d g None).
Proof.
  intros [Hle Hlt]%elem_of_seq.
  destruct (lookup_lt_is_Some_2 ds (s - length h)) as [d Hd]; [lia|].
  exists d. split; [done|].
  rewrite lookup_app_r by done. by rewrite list_lookup_fmap, Hd.
Qed.

(** X2. Creating a group and registering it to a collection, in that
    order, always succeeds: the group gets one member per dataset, the
    [i]-th bound to the [i]-th dataset and attached to it by the [i]-th
    [add_subset] call; every member is new, has no override and reads the
    label, the style and the selection state of the group. *)
Theorem new_group_registered (w : World) (lbl : option string) (dc : DataCollection) :
  ∃ g w1 w' G,
    SubsetGroup__init__ lbl w = Some (g, w1) ∧
    SubsetGroup_register g dc w1 = Some (tt, w') ∧
    groups w' !! g = Some G ∧ label G = lbl ∧
    length (subsets G) = length (datasets dc) ∧
    member_datasets w' G = datasets dc ∧
    members_follow_datasets w' g dc ∧
    trace w' = trace w ++ subscribed g (hub dc)
                       ++ attached (zip (datasets dc) (subsets G)) ∧
    (∀ s, s ∈ subsets G →
       members w !! s = None ∧
       (∃ d, members w' !! s = Some (mkGroupedSubset d g None)) ∧
       GroupedSubset_label s w' = Some (lbl, w') ∧
       GroupedSubset_style s w' = Some (_style G, w') ∧
       GroupedSubset_subset_state s w' = Some (subset_state G, w')) ∧
    (wf w → wf w').
Proof.
  pose proof (SubsetGroup__init___run lbl w) as Hinit.
  set (g := length (groups w)) in *.
  set (G0 := mkSubsetGroup [] (length (states w)) lbl (Some (length (styles w)))) in *.
  set (w1 := mkWorld (groups w ++ [G0]) (members w) (states w ++ [""])
                     (styles w ++ [mkVisualAttributes (Some g)]) (trace w)) in *.
  assert (HG0 : groups w1 !! g = Some G0) by by apply list_lookup_middle.
  pose proof (register_run g G0 dc w1 HG0 ltac:(by eexists)) as Hreg.
  set (G := mkSubsetGroup (seq (length (members w)) (length (datasets dc)))
                          (length (states w)) lbl (Some (length (styles w)))).
  assert (HG : groups (populated w1 g G0 dc) !! g = Some G).
  { unfold populated. simpl. apply list_lookup_insert_eq. by eapply lookup_lt_Some. }
  eexists g, w1, _, G.
  split; [exact Hinit|]. split; [exact Hreg|]. split; [exact HG|]. split; [done|].
  split; [simpl; by rewrite length_seq|].
  split; [apply omap_data_of_new_members|]. split.
  { intros i d Hd. exists G, (length (members w) + i), (mkGroupedSubset d g None).
    split; [done|]. simpl. split.
    - apply lookup_seq. split; [done|]. by eapply lookup_lt_Some.
    - split; [|done]. rewrite lookup_app_r by lia.
      replace (length (members w) + i - length (members w)) with i by lia.
      by rewrite list_lookup_fmap, Hd. }
  split; [simpl; by rewrite <- app_assoc|]. split.
  { intros s Hs. simpl in Hs.
    destruct (lookup_new_member (members w) g (datasets dc) s Hs) as (d & _ & Hm).
    apply elem_of_seq in Hs as [Hle _].
    split; [by apply lookup_ge_None_2|]. split; [by exists d|].
    split; [by apply (Pointer__get___run label s (mkGroupedSubset d g None) G)|].
    split; [by apply (GroupedSubset_style_run s (mkGroupedSubset d g None) G)|].
    by apply (Pointer__get___run subset_state s (mkGroupedSubset d g None) G). }
  intros Hwf. eapply keeps_wf_register; [exact Hreg|].
  eapply wf_SubsetGroup__init__; [done|exact Hinit].
Qed.

(** ** What every reachable world satisfies *)

Lemma reachable_world_with_member : reachable world_with_member.
Proof.
  apply (reachable_step
           (mkWorld [mkSubsetGroup [] 0 None (Some 0)] [] [""]
                    [mkVisualAttributes (Some 0)] [])
           (Handle 0 (mkMessage DataCollectionAddMessage 5)));
    [|done|reflexivity].
  by apply (reachable_step empty_world (NewGroup None)); [apply reachable_empty| |].
Qed.

(** X3. In every world built by client operations, a group lists only
    members that exist and whose [group] is that group, lists none twice,
    and no member is listed by two groups; the group of every member exists;
    and every group has a style and an existing selection state. *)
Theorem reachable_groups_own_their_members (w : World) :
  reachable w →
  (∀ g G s, groups w !! g = Some G → s ∈ subsets G →
            ∃ m, members w !! s = Some m ∧ group m = g) ∧
  (∀ g G, groups w !! g = Some G → NoDup (subsets G)) ∧
  (∀ g1 g2 G1 G2 s, groups w !! g1 = Some G1 → groups w !! g2 = Some G2 →
                    s ∈ subsets G1 → s ∈ subsets G2 → g1 = g2) ∧
  (∀ s m, members w !! s = Some m → is_Some (groups w !! group m)) ∧
  (∀ g G, groups w !! g = Some G →
          is_Some (_style G) ∧ is_Some (states w !! subset_state G)).
Proof.
  intros Hwf%reachable_wf. split; [by apply wf_subsets|].
  split; [by apply wf_nodup|]. split.
  - intros g1 g2 G1 G2 s HG1 HG2 Hs1 Hs2.
    destruct (wf_subsets w Hwf g1 G1 s HG1 Hs1) as (m1 & Hm1 & <-).
    destruct (wf_subsets w Hwf g2 G2 s HG2 Hs2) as (m2 & Hm2 & <-).
    congruence.
  - split; [by apply wf_group|]. intros g G HG.
    split; [by eapply wf_style|by eapply wf_state].
Qed.

Lemma reachable_groups_own_their_members_witness :
  reachable world_with_member ∧
  ∀ g G s, groups world_with_member !! g = Some G → s ∈ subsets G →
           ∃ m, members world_with_member !! s = Some m ∧ group m = g.
Proof.
  split; [exact reachable_world_with_member|].
  exact (proj1 (reachable_groups_own_their_members world_with_member
                  reachable_world_with_member)).
Defined.

(** ** Adding and removing a dataset *)

Lemma filter_ext_elem {A} (P Q : A → Prop) `{!∀ x, Decision (P x), !∀ x, Decision (Q x)}
    (l : list A) :
  (∀ x, x ∈ l → (P x ↔ Q x)) → filter P l = filter Q l.
Proof.
  induction l as [|x l IH]; intros Hext; [done|].
  rewrite !filter_cons.
  destruct (decide (P x)) as [HP|HP], (decide (Q x)) as [HQ|HQ].
  - f_equal. apply IH. intros y Hy. apply Hext. by right.
  - destruct HQ. apply Hext; [by left|done].
  - destruct HP. apply Hext; [by left|done].
  - apply IH. intros y Hy. apply Hext. by right.
Qed.

Lemma filter_all {A} (P : A → Prop) `{!∀ x, Decision (P x)} (l : list A) :
  Forall P l → filter P l = l.
Proof.
  induction 1 as [|x l HP _ IH]; [done|].
  rewrite filter_cons_True by done. by rewrite IH.
Qed.

Lemma bound_to_new_member w m d s :
  is_Some (members w !! s) →
  bound_to (with_members (λ h, h ++ [m]) w) d s ↔ bound_to w d s.
Proof.
  intros [m0 Hs]. unfold bound_to. simpl.
  by rewrite (lookup_app_l_Some _ _ _ _ Hs), Hs.
Qed.

(** X4. A dataset added and then removed: both handlers succeed and the
    member list ends as the old list without the members that were bound
    to the dataset; when none was, every group is exactly as before.  The
    member made in between stays in the store, outside every list, and the
    only call recorded is the one [add_subset]. *)
Theorem add_then_remove_data (w : World) (g : Ref) (G : SubsetGroup) (d : Ref) :
  wf w →
  groups w !! g = Some G →
  ∃ w1 w2 G2,
    SubsetGroup__add_data g d w = Some (tt, w1) ∧
    SubsetGroup__remove_data g d w1 = Some (tt, w2) ∧
    groups w2 !! g = Some G2 ∧
    subsets G2 = filter (λ s, ¬ bound_to w d s) (subsets G) ∧
    subset_state G2 = subset_state G ∧ label G2 = label G ∧ _style G2 = _style G ∧
    (Forall (λ s, ¬ bound_to w d s) (subsets G) → groups w2 = groups w) ∧
    members w2 = members w ++ [mkGroupedSubset d g None] ∧
    (length (members w) ∉ subsets G2) ∧
    trace w2 = trace w ++ [DataAddSubset d (length (members w))].
Proof.
  intros Hwf HG.
  pose proof (wf_subsets_allocated w g G Hwf HG) as Hall.
  pose proof (add_data_run g G d w HG (wf_style w Hwf g G HG)) as Hadd.
  set (n := length (members w)) in *.
  set (G1 := mkSubsetGroup (subsets G ++ [n]) (subset_state G) (label G) (_style G)) in *.
  set (w1 := mkWorld (<[g := G1]> (groups w)) (members w ++ [mkGroupedSubset d g None])
                     (states w) (styles w) (trace w ++ [DataAddSubset d n])) in *.
  assert (HG1 : groups w1 !! g = Some G1).
  { simpl. apply list_lookup_insert_eq. by eapply lookup_lt_Some. }
  assert (Hall1 : Forall (λ s, is_Some (members w1 !! s)) (subsets G1)).
  { simpl. apply Forall_app. split.
    - eapply Forall_impl; [exact Hall|]. intros s [m Hs]. exists m.
      by apply lookup_app_l_Some.
    - apply Forall_singleton. eexists. by apply list_lookup_middle. }
  pose proof (remove_data_run g G1 d w1 HG1 Hall1) as Hrem.
  assert (Hfilter : filter (λ s, ¬ bound_to w1 d s) (subsets G1)
                    = filter (λ s, ¬ bound_to w d s) (subsets G)).
  { simpl. rewrite filter_app.
    rewrite (filter_singleton_False (λ s, ¬ bound_to w1 d s) n []).
    2:{ intros Hnb. apply Hnb. unfold bound_to. simpl.
        by rewrite list_lookup_middle. }
    rewrite app_nil_r. apply filter_ext_elem. intros s Hs.
    pose proof (proj1 (Forall_forall _ _) Hall s Hs) as Hsome.
    by rewrite <- (bound_to_new_member w (mkGroupedSubset d g None) d s Hsome). }
  rewrite Hfilter in Hrem.
  eexists w1, _, _. split; [exact Hadd|]. split; [exact Hrem|]. simpl.
  split; [apply list_lookup_insert_eq; rewrite length_insert;
          by eapply lookup_lt_Some|]. simpl.
  do 4 (split; [done|]). split.
  { intros Hnone. rewrite list_insert_insert_eq, (filter_all _ _ Hnone).
    apply list_insert_id. by destruct G. }
  split; [done|]. split; [|done].
  intros [_ Hin]%list_elem_of_filter.
  pose proof (proj1 (Forall_forall _ _) Hall _ Hin) as [m Hm].
  apply lookup_lt_Some in Hm. unfold n in Hm. lia.
Qed.

Lemma add_then_remove_data_witness :
  wf world_A ∧ groups world_A !! 0 = Some group_A ∧
  ∃ w1 w2,
    SubsetGroup__add_data 0 12 world_A = Some (tt, w1) ∧
    SubsetGroup__remove_data 0 12 w1 = Some (tt, w2) ∧
    groups w2 = groups world_A.
Proof.
  split; [exact wf_world_A|]. split; [reflexivity|].
  destruct (add_then_remove_data world_A 0 group_A 12 wf_world_A eq_refl)
    as (w1 & w2 & G2 & Hadd & Hrem & _ & _ & _ & _ & _ & Hsame & _).
  exists w1, w2. split; [exact Hadd|]. split; [exact Hrem|].
  apply Hsame. repeat constructor; by intros [=].
Defined.

(** X5. Removing a dataset to which no member of the group is bound
    succeeds and leaves the world exactly as it is; and after a dataset has
    been removed, removing it again changes nothing. *)
Theorem remove_data_without_bound_member (w : World) (g : Ref) (G : SubsetGroup) (d : Ref) :
  wf w →
  groups w !! g = Some G →
  (Forall (λ s, ¬ bound_to w d s) (subsets G) →
     SubsetGroup__remove_data g d w = Some (tt, w)) ∧
  ∃ w1,
    SubsetGroup__remove_data g d w = Some (tt, w1) ∧
    SubsetGroup__remove_data g d w1 = Some (tt, w1).
Proof.
  intros Hwf HG.
  pose proof (wf_subsets_allocated w g G Hwf HG) as Hall.
  pose proof (remove_data_run g G d w HG Hall) as Hrem.
  assert (Hnoop : ∀ w0 G0, groups w0 !! g = Some G0 →
            Forall (λ s, is_Some (members w0 !! s)) (subsets G0) →
            Forall (λ s, ¬ bound_to w0 d s) (subsets G0) →
            SubsetGroup__remove_data g d w0 = Some (tt, w0)).
  { intros w0 G0 HG0 Hall0 Hnone.
    rewrite (remove_data_run g G0 d w0 HG0 Hall0), (filter_all _ _ Hnone).
    unfold with_groups. rewrite list_insert_id by by destruct G0.
    by rewrite world_eta. }
  split; [by apply (Hnoop w G)|].
  eexists. split; [exact Hrem|].
  eapply Hnoop; simpl.
  - apply list_lookup_insert_eq. by eapply lookup_lt_Some.
  - simpl. apply Forall_forall. intros s [_ Hin]%list_elem_of_filter.
    by apply (proj1 (Forall_forall _ _) Hall).
  - simpl. apply Forall_forall. by intros s [Hnb _]%list_elem_of_filter.
Qed.

Lemma remove_data_without_bound_member_witness :
  wf world_A ∧ groups world_A !! 0 = Some group_A ∧
  SubsetGroup__remove_data 0 12 world_A = Some (tt, world_A).
Proof.
  split; [exact wf_world_A|]. split; [reflexivity|].
  apply (proj1 (remove_data_without_bound_member world_A 0 group_A 12
                  wf_world_A eq_refl)).
  repeat constructor; by intros [=].
Defined.

(** ** What leaves the overrides alone *)

Lemma keeps_members_emit h e : keeps (members_kept h) (emit e).
Proof. by intros w a w' [= _ <-]. Qed.
Lemma keeps_members_put_group h g G : keeps (members_kept h) (put_group g G).
Proof. by intros w a w' [= _ <-]. Qed.
Lemma keeps_members_put_state h r c : keeps (members_kept h) (put_state r c).
Proof. by intros w a w' [= _ <-]. Qed.
Lemma keeps_members_new_state h c : keeps (members_kept h) (new_state c).
Proof. by intros w a w' [= _ <-]. Qed.
Lemma keeps_members_new_style h v : keeps (members_kept h) (new_style v).
Proof. by intros w a w' [= _ <-]. Qed.
Lemma keeps_members_new_member h m : keeps (members_kept h) (new_member m).
Proof.
  intros w a w' [= _ <-] Hpre. unfold members_kept in *. simpl.
  by apply prefix_app_r.
Qed.

#[local] Hint Resolve keeps_members_emit keeps_members_put_group keeps_members_put_state
  keeps_members_new_state keeps_members_new_style keeps_members_new_member : keeps.

Lemma keeps_members_broadcast_attr h g name :
  keeps (members_kept h) (SubsetGroup_broadcast g (ItemAttr name)).
Proof. unfold SubsetGroup_broadcast, Subset_broadcast. keeps_tac. Qed.

#[local] Hint Resolve keeps_members_broadcast_attr : keeps.

Lemma keeps_members_mutate h μ :
  touches_overrides μ = false → keeps (members_kept h) (mutate μ).
Proof.
  intros Hμ. destruct μ as [lbl|c|p|g a|g other|g dc|g x|g item|v|r c|s v|s|s v|s v];
    simpl in Hμ; try discriminate; simpl.
  - intros w a w' (g & w1 & Hinit & [= _ <-])%bind_inv.
    rewrite SubsetGroup__init___run in Hinit. injection Hinit as _ <-.
    by intros Hpre.
  - keeps_tac.
  - keeps_tac.
  - destruct a; try discriminate;
      unfold SubsetGroup__setattr__, object__setattr__; keeps_tac.
  - unfold SubsetGroup_paste, GroupedSubset_subset_state, Pointer__get__,
      SubsetState_copy, SubsetGroup__setattr__, object__setattr__. keeps_tac.
  - unfold SubsetGroup_register, SubsetGroup_register_to_hub, Hub_subscribe,
      register_populate, register_attach, Data_add_subset, GroupedSubset__init__,
      subsets_append. keeps_tac.
  - unfold SubsetGroup_handle, SubsetGroup__add_data, SubsetGroup__remove_data,
      Data_add_subset, GroupedSubset__init__, subsets_append, subsets_remove.
    keeps_tac.
  - destruct item; [|discriminate]. keeps_tac.
  - keeps_tac.
  - unfold GroupedSubset_set_label, Pointer__set__, SubsetGroup__setattr__,
      object__setattr__. keeps_tac.
  - unfold GroupedSubset_set_subset_state, Pointer__set__, SubsetGroup__setattr__,
      object__setattr__. keeps_tac.
Qed.

(** X6. Only an assignment to a group's [style], a broadcast or change of
    a style object, and a member's own style setter and
    [clear_override_style] can change a member.  Every other operation
    (creating a group, assigning [label] or [subset_state] through the group
    or a member, [paste], [register], a dataset added or removed, a
    broadcast of an attribute name), when it ends, leaves every member that
    existed exactly as it was, so a member with an override still reports
    it. *)
Theorem other_operations_keep_overrides (w : World) (μ : Mutation) (w' : World) :
  touches_overrides μ = false →
  mutate μ w = Some (tt, w') →
  members w `prefix_of` members w' ∧
  (∀ s m, members w !! s = Some m → members w' !! s = Some m) ∧
  ∀ s m o, members w !! s = Some m → _style_override m = Some o →
           GroupedSubset_style s w' = Some (Some o, w').
Proof.
  intros Hμ Hrun.
  assert (Hpre : members w `prefix_of` members w').
  { apply (keeps_members_mutate (members w) μ Hμ w tt w' Hrun).
    exists []. by rewrite app_nil_r. }
  assert (Hkept : ∀ s m, members w !! s = Some m → members w' !! s = Some m).
  { intros s m Hm. destruct Hpre as [k ->]. by apply lookup_app_l_Some. }
  split; [done|]. split; [done|].
  intros s m o Hm Ho. unfold GroupedSubset_style.
  rewrite (bind_run _ _ _ _ _ (get_member_run _ _ _ (Hkept s m Hm))).
  by rewrite Ho.
Qed.

Lemma other_operations_keep_overrides_witness :
  ∃ w',
    mutate (Assign_attr 0 (Set_label (Some "B"))) world_A = Some (tt, w') ∧
    GroupedSubset_style 0 w' = Some (Some 7, w').
Proof.
  eexists. split; [vm_compute; reflexivity|].
  match goal with
  | |- GroupedSubset_style 0 ?w' = _ =>
      exact (proj2 (proj2 (other_operations_keep_overrides world_A
                             (Assign_attr 0 (Set_label (Some "B"))) w'
                             eq_refl eq_refl))
               0 (mkGroupedSubset 10 0 (Some 7)) 7 eq_refl eq_refl)
  end.
Defined.

(** X7. An assignment to the [style] of one group is local to it: the
    members it lists lose their override and keep their dataset and group,
    every other member is left as it was, and so are the other groups, the
    states and the style objects; a member of another group that has an
    override still reports it. *)
Theorem style_assignment_is_local (w : World) (g : Ref) (G : SubsetGroup) (v : Ref) :
  wf w →
  groups w !! g = Some G →
  ∃ w',
    SubsetGroup__setattr__ g (Set_style v) w = Some (tt, w') ∧
    (∀ s m, s ∈ subsets G → members w !! s = Some m →
            members w' !! s = Some (without_override m)) ∧
    (∀ s, s ∉ subsets G → members w' !! s = members w !! s) ∧
    (∀ g', g' ≠ g → groups w' !! g' = groups w !! g') ∧
    states w' = states w ∧ styles w' = styles w ∧
    ∀ g' G' s m o, g' ≠ g → groups w !! g' = Some G' → s ∈ subsets G' →
                   members w !! s = Some m → _style_override m = Some o →
                   GroupedSubset_style s w' = Some (Some o, w').
Proof.
  intros Hwf HG.
  destruct (setattr_style_run g G v w HG (wf_subsets_allocated w g G Hwf HG))
    as (pre & Hrun & _).
  eexists. split; [exact Hrun|]. simpl.
  assert (Hout : ∀ s, s ∉ subsets G →
            clear_in (subsets G) (members w) !! s = members w !! s).
  { intros s Hs. rewrite lookup_clear_in. destruct (members w !! s); [|done].
    simpl. by rewrite bool_decide_eq_false_2. }
  split.
  { intros s m Hs Hm. rewrite lookup_clear_in, Hm. simpl.
    by rewrite bool_decide_eq_true_2. }
  split; [done|]. split; [by intros g' Hne; apply list_lookup_insert_ne|].
  do 2 (split; [done|]).
  intros g' G' s m o Hne HG' Hs Hm Ho.
  assert (Hnin : s ∉ subsets G).
  { intros Hin. destruct (wf_subsets w Hwf g G s HG Hin) as (m1 & Hm1 & Hg1).
    destruct (wf_subsets w Hwf g' G' s HG' Hs) as (m2 & Hm2 & Hg2). congruence. }
  unfold GroupedSubset_style.
  erewrite bind_run; [|apply get_member_run; simpl; rewrite (Hout s Hnin); exact Hm].
  by rewrite Ho.
Qed.

Lemma wf_world_two_groups : wf world_two_groups.
Proof. wf_concrete. Qed.

Lemma style_assignment_is_local_witness :
  wf world_two_groups ∧ groups world_two_groups !! 0 = Some group_A ∧
  ∃ w',
    SubsetGroup__setattr__ 0 (Set_style 9) world_two_groups = Some (tt, w') ∧
    GroupedSubset_style 2 w' = Some (Some 8, w').
Proof.
  split; [exact wf_world_two_groups|]. split; [reflexivity|].
  destruct (style_assignment_is_local world_two_groups 0 group_A 9
              wf_world_two_groups eq_refl)
    as (w' & Hrun & _ & _ & _ & _ & _ & Hother).
  exists w'. split; [exact Hrun|].
  apply (Hother 1 (mkSubsetGroup [2] 0 (Some "B") (Some 1)) 2
                (mkGroupedSubset 10 1 (Some 8)) 8);
    [lia|reflexivity|by apply list_elem_of_singleton|reflexivity|reflexivity].
Defined.

(** ** How often a member is notified of a style change *)

Lemma overridden_lookup w s m :
  members w !! s = Some m → (overridden w s ↔ is_Some (_style_override m)).
Proof. intros Hm. unfold overridden. by rewrite Hm. Qed.

Lemma filter_none {A} (P : A → Prop) `{!∀ x, Decision (P x)} (l : list A) :
  Forall (λ x, ¬ P x) l → filter P l = [].
Proof.
  induction 1 as [|x l HP _ IH]; [done|]. by rewrite filter_cons_False.
Qed.

Lemma clear_in_idemp l h : clear_in l (clear_in l h) = clear_in l h.
Proof.
  apply list_eq. intros i. rewrite !lookup_clear_in.
  destruct (h !! i) as [m|]; [|done]. simpl. by case_bool_decide.
Qed.

Lemma for_each_clear_exact l : ∀ w,
  NoDup l →
  Forall (λ s, is_Some (members w !! s)) l →
  for_each l GroupedSubset_clear_override_style w =
    Some (tt, mkWorld (groups w) (clear_in l (members w)) (states w) (styles w)
                      (trace w ++ fan_out (ItemAttr "style") (filter (overridden w) l))).
Proof.
  induction l as [|x l IH]; intros w Hnd Hall.
  - simpl. unfold ret, clear_in, fan_out. simpl.
    rewrite app_nil_r. rewrite <- (world_eta w) at 1. do 3 f_equal.
    apply list_eq. intros i. rewrite list_lookup_imap. by destruct (members w !! i).
  - apply NoDup_cons in Hnd as [Hx Hnd].
    apply Forall_cons in Hall as [[m Hm] Hall]. simpl.
    rewrite (bind_run _ _ _ _ _ (clear_override_style_run _ _ _ Hm)).
    destruct (_style_override m) as [o|] eqn:Ho.
    + rewrite IH; [|done|].
      2:{ simpl. eapply Forall_impl; [exact Hall|]. intros s [ms Hs]. simpl.
          apply lookup_lt_is_Some. rewrite length_insert. by eapply lookup_lt_Some. }
      simpl. rewrite (clear_in_cons _ _ _ _ Hm), <- app_assoc.
      rewrite filter_cons_True by (apply (overridden_lookup w x m Hm); by rewrite Ho).
      do 3 f_equal. unfold fan_out. simpl. do 2 f_equal.
      change (list_fmap Ref Event ?f ?l0) with (f <$> l0). f_equal.
      apply filter_ext_elem. intros s Hs. unfold overridden. simpl.
      rewrite list_lookup_insert_ne; [done|]. by intros ->.
    + rewrite IH by done.
      rewrite <- (clear_in_cons _ _ _ _ Hm), without_override_id by done.
      rewrite list_insert_id by done.
      rewrite filter_cons_False; [done|].
      intros Hov%(overridden_lookup w x m Hm). rewrite Ho in Hov. by destruct Hov.
Qed.

Lemma clear_overrides_exact g G w :
  groups w !! g = Some G → NoDup (subsets G) →
  Forall (λ s, is_Some (members w !! s)) (subsets G) →
  SubsetGroup__clear_overrides g w =
    Some (tt, mkWorld (groups w) (clear_in (subsets G) (members w)) (states w) (styles w)
                      (trace w ++ fan_out (ItemAttr "style")
                                          (filter (overridden w) (subsets G)))).
Proof.
  intros HG Hnd Hall. unfold SubsetGroup__clear_overrides.
  rewrite (bind_run _ _ _ _ _ (get_group_run _ _ _ HG)).
  by apply for_each_clear_exact.
Qed.

Lemma not_overridden_after_clear l h s (w : World) :
  s ∈ l → members w = clear_in l h → ¬ overridden w s.
Proof.
  intros Hs Hm. unfold overridden. rewrite Hm, lookup_clear_in.
  destruct (h !! s) as [m|]; simpl; [|by intros [? ?]].
  rewrite bool_decide_eq_true_2 by done. simpl. by intros [? ?].
Qed.

(** X8. [_clear_overrides] notifies exactly the listed members that have
    an override, once each and in list order; afterwards no listed member
    has an override, the other members and the groups are as before, and a
    second call records nothing and changes nothing. *)
Theorem clear_overrides_notifies_once (w : World) (g : Ref) (G : SubsetGroup) :
  wf w →
  groups w !! g = Some G →
  ∃ w',
    SubsetGroup__clear_overrides g w = Some (tt, w') ∧
    trace w' = trace w ++ fan_out (ItemAttr "style") (filter (overridden w) (subsets G)) ∧
    (∀ s, s ∈ subsets G → ¬ overridden w' s) ∧
    (∀ s, s ∉ subsets G → members w' !! s = members w !! s) ∧
    groups w' = groups w ∧ states w' = states w ∧ styles w' = styles w ∧
    SubsetGroup__clear_overrides g w' = Some (tt, w').
Proof.
  intros Hwf HG.
  pose proof (wf_subsets_allocated w g G Hwf HG) as Hall.
  pose proof (wf_nodup w Hwf g G HG) as Hnd.
  set (w1 := mkWorld (groups w) (clear_in (subsets G) (members w)) (states w) (styles w)
                     (trace w ++ fan_out (ItemAttr "style")
                                         (filter (overridden w) (subsets G)))).
  assert (Hclean : Forall (λ s, ¬ overridden w1 s) (subsets G)).
  { apply Forall_forall. intros s Hs.
    by apply (not_overridden_after_clear (subsets G) (members w)). }
  exists w1. split; [by apply clear_overrides_exact|].
  split; [done|]. split; [by apply Forall_forall|]. split.
  { intros s Hs. simpl. rewrite lookup_clear_in. destruct (members w !! s); [|done].
    simpl. by rewrite bool_decide_eq_false_2. }
  do 3 (split; [done|]).
  rewrite (clear_overrides_exact g G w1); [|done|done|].
  - rewrite (filter_none _ _ Hclean). unfold w1 at 1 2 3 4 5. simpl.
    rewrite clear_in_idemp. unfold fan_out at 1. simpl. by rewrite app_nil_r.
  - simpl. eapply Forall_impl; [exact Hall|]. intros s Hs. simpl.
    apply lookup_lt_is_Some. rewrite length_clear_in. by apply lookup_lt_is_Some.
Qed.

Lemma clear_overrides_notifies_once_witness :
  wf world_A ∧ groups world_A !! 0 = Some group_A ∧
  ∃ w',
    SubsetGroup__clear_overrides 0 world_A = Some (tt, w') ∧
    trace w' = [SubsetBroadcast 0 (ItemAttr "style")] ∧
    SubsetGroup__clear_overrides 0 w' = Some (tt, w').
Proof.
  split; [exact wf_world_A|]. split; [reflexivity|].
  destruct (clear_overrides_notifies_once world_A 0 group_A wf_world_A eq_refl)
    as (w' & Hrun & Htrace & _ & _ & _ & _ & _ & Hagain).
  exists w'. split; [exact Hrun|]. split; [exact Htrace|exact Hagain].
Defined.

Lemma setattr_style_exact g G v w :
  groups w !! g = Some G → NoDup (subsets G) →
  Forall (λ s, is_Some (members w !! s)) (subsets G) →
  SubsetGroup__setattr__ g (Set_style v) w =
    Some (tt, mkWorld
                (<[g := mkSubsetGroup (subsets G) (subset_state G) (label G) (Some v)]>
                   (groups w))
                (clear_in (subsets G) (members w)) (states w) (styles w)
                (trace w ++ fan_out (ItemAttr "style") (filter (overridden w) (subsets G))
                         ++ fan_out (ItemAttr "style") (subsets G))).
Proof.
  intros HG Hnd Hall.
  pose (G' := mkSubsetGroup (subsets G) (subset_state G) (label G) (Some v)).
  pose proof (clear_overrides_exact g G' (with_groups (λ h, <[g := G']> h) w)
                ltac:(by eapply put_group_lookup) Hnd Hall) as Hrun.
  unfold SubsetGroup__setattr__, object__setattr__.
  rewrite bind_assoc, (bind_run _ _ _ _ _ (get_group_run _ _ _ HG)).
  rewrite bind_assoc. unfold put_group at 1. unfold bind at 1. fold G'.
  rewrite (bind_run _ _ _ _ _ Hrun). simpl.
  rewrite (broadcast_attr_run g G'); [|simpl; by eapply put_group_lookup].
  unfold with_trace. simpl. by rewrite <- app_assoc.
Qed.

Lemma notifications_app s item t1 t2 :
  notifications s item (t1 ++ t2) = notifications s item t1 + notifications s item t2.
Proof. unfold notifications. by rewrite filter_app, length_app. Qed.

Lemma notifications_fan_out s item l :
  NoDup l →
  notifications s item (fan_out item l) = if decide (s ∈ l) then 1 else 0.
Proof.
  unfold notifications, fan_out. induction 1 as [|x l Hx Hnd IH]; [done|].
  rewrite fmap_cons, filter_cons.
  destruct (decide (SubsetBroadcast x item = SubsetBroadcast s item)) as [[= ->]|Hne].
  - simpl. rewrite IH. rewrite decide_False by done.
    by rewrite decide_True by by left.
  - rewrite IH. destruct (decide (s ∈ l)) as [Hin|Hnin].
    + by rewrite decide_True by by right.
    + rewrite decide_False; [done|].
      intros [->|?]%elem_of_cons; [by destruct Hne|done].
Qed.

(** X9. An assignment to the group's [style] records, in this order, one
    style notification for each listed member that has an override (from
    clearing it) and then one for each listed member: a member with an
    override is notified twice, a member without once, and a member the
    group does not list not at all. *)
Theorem style_assignment_notifies_overriders_twice (w : World) (g : Ref) (G : SubsetGroup) (v : Ref) :
  wf w →
  groups w !! g = Some G →
  ∃ w' new,
    SubsetGroup__setattr__ g (Set_style v) w = Some (tt, w') ∧
    trace w' = trace w ++ new ∧
    new = fan_out (ItemAttr "style") (filter (overridden w) (subsets G))
          ++ fan_out (ItemAttr "style") (subsets G) ∧
    (∀ s, s ∈ subsets G →
          notifications s (ItemAttr "style") new
            = if decide (overridden w s) then 2 else 1) ∧
    (∀ s, s ∉ subsets G → notifications s (ItemAttr "style") new = 0).
Proof.
  intros Hwf HG.
  pose proof (wf_subsets_allocated w g G Hwf HG) as Hall.
  pose proof (wf_nodup w Hwf g G HG) as Hnd.
  eexists _, _. split; [by apply setattr_style_exact|]. simpl.
  split; [done|]. split; [done|].
  assert (Hcount : ∀ s,
            notifications s (ItemAttr "style")
              (fan_out (ItemAttr "style") (filter (overridden w) (subsets G))
               ++ fan_out (ItemAttr "style") (subsets G))
            = (if decide (s ∈ filter (overridden w) (subsets G)) then 1 else 0)
              + (if decide (s ∈ subsets G) then 1 else 0)).
  { intros s. rewrite notifications_app, !notifications_fan_out; [done|done|].
    by apply NoDup_filter. }
  split.
  - intros s Hs. rewrite Hcount. rewrite (decide_True _ _ Hs).
    destruct (decide (overridden w s)) as [Hov|Hov].
    + rewrite decide_True; [done|]. by apply list_elem_of_filter.
    + rewrite decide_False; [done|]. by intros [? _]%list_elem_of_filter.
  - intros s Hs. rewrite Hcount. rewrite (decide_False _ _ Hs).
    rewrite decide_False; [done|]. by intros [_ ?]%list_elem_of_filter.
Qed.

Lemma style_assignment_notifies_overriders_twice_witness :
  wf world_A ∧ groups world_A !! 0 = Some group_A ∧
  ∃ w',
    SubsetGroup__setattr__ 0 (Set_style 9) world_A = Some (tt, w') ∧
    trace w' = [SubsetBroadcast 0 (ItemAttr "style");
                SubsetBroadcast 0 (ItemAttr "style");
                SubsetBroadcast 1 (ItemAttr "style")].
Proof.
  split; [exact wf_world_A|]. split; [reflexivity|].
  destruct (style_assignment_notifies_overriders_twice world_A 0 group_A 9
              wf_world_A eq_refl)
    as (w' & new & Hrun & Htrace & Hnew & _).
  exists w'. split; [exact Hrun|]. rewrite Htrace, Hnew. reflexivity.
Defined.

(** ** A member whose dataset was removed *)

(** X10. [_remove_data] only takes the member out of the list: the member
    stays in the store as it was and still reads its [label] from the
    group, also after the label is assigned again, but it is no longer sent
    the group's notifications. *)
Theorem removed_member_still_delegates (w : World) (g : Ref) (G : SubsetGroup) (d s : Ref) (m : GroupedSubset) :
  wf w →
  groups w !! g = Some G →
  s ∈ subsets G →
  members w !! s = Some m →
  data m = d →
  ∃ w1 G1,
    SubsetGroup__remove_data g d w = Some (tt, w1) ∧
    groups w1 !! g = Some G1 ∧
    (s ∉ subsets G1) ∧
    members w1 !! s = Some m ∧
    GroupedSubset_label s w1 = Some (label G, w1) ∧
    ∀ lbl, ∃ w2,
      SubsetGroup__setattr__ g (Set_label lbl) w1 = Some (tt, w2) ∧
      trace w2 = trace w1 ++ fan_out (ItemAttr "label") (subsets G1) ∧
      notifications s (ItemAttr "label") (fan_out (ItemAttr "label") (subsets G1)) = 0 ∧
      GroupedSubset_label s w2 = Some (lbl, w2).
Proof.
  intros Hwf HG Hs Hm Hd.
  pose proof (wf_subsets_allocated w g G Hwf HG) as Hall.
  destruct (wf_subsets w Hwf g G s HG Hs) as (m0 & Hm0 & Hgm).
  rewrite Hm in Hm0. injection Hm0 as <-.
  set (G1 := mkSubsetGroup (filter (λ s, ¬ bound_to w d s) (subsets G))
                           (subset_state G) (label G) (_style G)).
  set (w1 := with_groups (λ h, <[g := G1]> h) w).
  assert (HG1 : groups w1 !! g = Some G1) by by eapply put_group_lookup.
  assert (Hnin : s ∉ subsets G1).
  { simpl. intros [Hnb _]%list_elem_of_filter. apply Hnb.
    unfold bound_to. by rewrite Hm, <- Hd. }
  exists w1, G1. split; [by apply remove_data_run|].
  split; [done|]. split; [done|]. split; [done|].
  split; [apply (Pointer__get___run label s m G1); [done|by rewrite Hgm]|].
  intros lbl. eexists. split; [by apply (setattr_label_run g G1)|]. simpl.
  split; [done|]. split.
  - rewrite notifications_fan_out.
    + by rewrite decide_False.
    + apply NoDup_filter. by eapply wf_nodup.
  - apply (Pointer__get___run label s m
             (mkSubsetGroup (subsets G1) (subset_state G1) lbl (_style G1)));
      [done|]. simpl. rewrite Hgm, list_insert_insert_eq.
    apply list_lookup_insert_eq. by eapply lookup_lt_Some.
Qed.

Lemma removed_member_still_delegates_witness :
  wf world_A ∧ groups world_A !! 0 = Some group_A ∧
  ∃ w1,
    SubsetGroup__remove_data 0 10 world_A = Some (tt, w1) ∧
    members w1 !! 0 = Some (mkGroupedSubset 10 0 (Some 7)) ∧
    GroupedSubset_label 0 w1 = Some (Some "A", w1).
Proof.
  split; [exact wf_world_A|]. split; [reflexivity|].
  destruct (removed_member_still_delegates world_A 0 group_A 10 0
              (mkGroupedSubset 10 0 (Some 7)) wf_world_A eq_refl
              ltac:(by left) eq_refl eq_refl)
    as (w1 & G1 & Hrun & _ & _ & Hm & Hlabel & _).
  exists w1. split; [exact Hrun|]. split; [exact Hm|exact Hlabel].
Defined.

(** ** A group without a style *)

(** A group as [__init__] has it before its style is assigned. *)
Example styleless_group_after_assignment :
  mutate (Assign_attr 0 (Set__style None)) world_new
    = Some (tt, mkWorld [mkSubsetGroup [] 0 (Some "A") None] [] [""]
                        [mkVisualAttributes (Some 0)] []).
Proof. reflexivity. Qed.

Lemma bind_fail {A B} (m : M A) (k : A → M B) w : m w = None → bind m k w = None.
Proof. unfold bind. by intros ->. Qed.

Lemma register_to_hub_run g h w :
  SubsetGroup_register_to_hub g h w = Some (tt, with_trace (λ t, t ++ subscribed g h) w).
Proof.
  unfold SubsetGroup_register_to_hub, Hub_subscribe, emit, bind, with_trace, subscribed.
  simpl. by rewrite <- app_assoc.
Qed.

(** X11. [GroupedSubset.__init__] reads [group.style.color], so for a
    group that exists creating a member raises exactly when the group's
    style is [None]; then [_add_data] raises as well, and so does
    [register] unless the collection is empty, in which case it makes its
    two subscriptions and nothing else. *)
Theorem group_without_style_takes_no_dataset (w : World) (g : Ref) (G : SubsetGroup) :
  groups w !! g = Some G →
  (∀ d, GroupedSubset__init__ d g w = None ↔ _style G = None) ∧
  (∀ d, SubsetGroup__add_data g d w = None ↔ _style G = None) ∧
  (∀ h d ds, SubsetGroup_register g (mkDataCollection h (d :: ds)) w = None
             ↔ _style G = None) ∧
  ∀ h, _style G = None →
       SubsetGroup_register g (mkDataCollection h []) w
         = Some (tt, with_trace (λ t, t ++ subscribed g h) w).
Proof.
  intros HG.
  assert (Hinit : ∀ w0 d, groups w0 !! g = Some G → _style G = None →
            GroupedSubset__init__ d g w0 = None).
  { intros w0 d HG0 Hnone. unfold GroupedSubset__init__.
    rewrite (bind_run _ _ _ _ _ (get_group_run _ _ _ HG0)). by rewrite Hnone. }
  split; [|split; [|split]].
  - intros d. split; [|by apply Hinit].
    destruct (_style G) as [v|] eqn:Hv; [|done].
    by rewrite (GroupedSubset__init___run d g G w HG) by by rewrite Hv.
  - intros d. split.
    + destruct (_style G) as [v|] eqn:Hv; [|done].
      by rewrite (add_data_run g G d w HG) by by rewrite Hv.
    + intros Hnone. unfold SubsetGroup__add_data. by apply bind_fail, Hinit.
  - intros h d ds. split.
    + destruct (_style G) as [v|] eqn:Hv; [|done].
      by rewrite (register_run g G _ w HG) by by rewrite Hv.
    + intros Hnone. unfold SubsetGroup_register.
      rewrite (bind_run _ _ _ _ _ (register_to_hub_run g h w)).
      apply bind_fail. unfold register_populate. simpl.
      by apply bind_fail, bind_fail, Hinit.
  - intros h Hnone. unfold SubsetGroup_register.
    rewrite (bind_run _ _ _ _ _ (register_to_hub_run g h w)).
    unfold register_populate. simpl.
    rewrite (bind_run _ _ _ tt _ eq_refl).
    by rewrite (bind_run _ _ _ G _
                  (get_group_run g G (with_trace (λ t, t ++ subscribed g h) w) HG)).
Qed.

Lemma group_without_style_takes_no_dataset_witness :
  groups (mkWorld [mkSubsetGroup [] 0 (Some "A") None] [] [""]
                  [mkVisualAttributes (Some 0)] []) !! 0
    = Some (mkSubsetGroup [] 0 (Some "A") None) ∧
  SubsetGroup__add_data 0 10
    (mkWorld [mkSubsetGroup [] 0 (Some "A") None] [] [""]
             [mkVisualAttributes (Some 0)] []) = None.
Proof.
  split; [reflexivity|].
  exact (proj2 (proj1 (proj2 (group_without_style_takes_no_dataset
                               (mkWorld [mkSubsetGroup [] 0 (Some "A") None] [] [""]
                                        [mkVisualAttributes (Some 0)] [])
                               0 (mkSubsetGroup [] 0 (Some "A") None) eq_refl)) 10)
               eq_refl).
Defined.

(** ** [register] on a group that has members *)

Lemma zip_app_shorter {A B} (l : list A) (k1 k2 : list B) :
  length l ≤ length k1 → zip l (k1 ++ k2) = zip l k1.
Proof.
  revert k1. induction l as [|x l IH]; intros [|y k1] Hlen; simpl in *;
    [done|done|lia|].
  f_equal. apply IH. lia.
Qed.

Lemma elem_of_attached d s (ds l : list Ref) :
  DataAddSubset d s ∈ attached (zip ds l) → d ∈ ds ∧ s ∈ l.
Proof.
  unfold attached. intros ([d' s'] & [= -> ->] & Hin)%list_elem_of_fmap.
  apply list_elem_of_lookup in Hin as [i Hi].
  apply lookup_zip_with_Some in Hi as (d0 & s0 & [= -> ->] & Hd & Hs).
  split; by eapply list_elem_of_lookup_2.
Qed.

(** X12. [register] pairs the datasets with the member list from its
    start.  On a group that already lists at least as many members as the
    collection has datasets, it still creates and appends one member per
    dataset, but every [add_subset] call passes a member that was listed
    before, the [i]-th dataset with the [i]-th old member: none of the
    members it creates is attached to a dataset. *)
Theorem register_attaches_listed_members_first (w : World) (g : Ref) (G : SubsetGroup) (dc : DataCollection) :
  wf w →
  groups w !! g = Some G →
  length (datasets dc) ≤ length (subsets G) →
  ∃ w' G',
    SubsetGroup_register g dc w = Some (tt, w') ∧
    groups w' !! g = Some G' ∧
    subsets G' = subsets G ++ seq (length (members w)) (length (datasets dc)) ∧
    members w' = members w ++ ((λ d, mkGroupedSubset d g None) <$> datasets dc) ∧
    trace w' = trace w ++ subscribed g (hub dc)
                       ++ attached (zip (datasets dc) (subsets G)) ∧
    (∀ i d, datasets dc !! i = Some d →
       ∃ s, subsets G !! i = Some s ∧
            attached (zip (datasets dc) (subsets G)) !! i = Some (DataAddSubset d s)) ∧
    ∀ d s, DataAddSubset d s ∈ attached (zip (datasets dc) (subsets G)) →
           s ∈ subsets G ∧ is_Some (members w !! s).
Proof.
  intros Hwf HG Hlen.
  pose proof (register_run g G dc w HG (wf_style w Hwf g G HG)) as Hreg.
  rewrite (zip_app_shorter _ _ _ Hlen) in Hreg.
  eexists _, _. split; [exact Hreg|]. simpl.
  split; [apply list_lookup_insert_eq; by eapply lookup_lt_Some|]. simpl.
  split; [done|]. split; [done|]. split; [by rewrite <- app_assoc|]. split.
  - intros i d Hd.
    destruct (lookup_lt_is_Some_2 (subsets G) i) as [s Hs].
    { apply lookup_lt_Some in Hd. lia. }
    exists s. split; [done|]. unfold attached. rewrite list_lookup_fmap.
    by rewrite (proj2 (lookup_zip_with_Some pair _ _ i (d, s))
                  ltac:(by exists d, s)).
  - intros d s [_ Hs]%elem_of_attached. split; [done|].
    destruct (wf_subsets w Hwf g G s HG Hs) as (m & Hm & _). by exists m.
Qed.

Lemma register_attaches_listed_members_first_witness :
  wf world_A ∧ groups world_A !! 0 = Some group_A ∧
  ∃ w',
    SubsetGroup_register 0 (mkDataCollection 0 [20; 21]) world_A = Some (tt, w') ∧
    trace w' = [HubSubscribe 0 0 DataCollectionAddMessage;
                HubSubscribe 0 0 DataCollectionDeleteMessage;
                DataAddSubset 20 0; DataAddSubset 21 1] ∧
    members w' !! 2 = Some (mkGroupedSubset 20 0 None).
Proof.
  split; [exact wf_world_A|]. split; [reflexivity|].
  destruct (register_attaches_listed_members_first world_A 0 group_A
              (mkDataCollection 0 [20; 21]) wf_world_A eq_refl ltac:(simpl; lia))
    as (w' & G' & Hrun & _ & _ & Hm & Htrace & _).
  exists w'. split; [exact Hrun|]. split; [exact Htrace|]. by rewrite Hm.
Defined.

(** ** What members read after [paste] *)

(** X13. After [paste(other_subset)] every member of the group reads, as
    its [subset_state], one and the same new state object holding the
    criteria [other_subset] had, and reads the label as before; what
    [other_subset] itself reads is still the state that was copied, unless
    it belongs to the group, and then it is the copy. *)
Theorem paste_is_read_by_every_member (w : World) (g : Ref) (G : SubsetGroup) (other : Ref) (m : GroupedSubset) :
  wf w →
  groups w !! g = Some G →
  members w !! other = Some m →
  ∃ w' r r' c,
    GroupedSubset_subset_state other w = Some (r, w) ∧
    states w !! r = Some c ∧
    SubsetGroup_paste g other w = Some (tt, w') ∧
    r' ≠ r ∧ states w' !! r' = Some c ∧ states w' !! r = Some c ∧
    (∀ s, s ∈ subsets G →
          GroupedSubset_subset_state s w' = Some (r', w') ∧
          GroupedSubset_label s w' = Some (label G, w')) ∧
    (group m ≠ g → GroupedSubset_subset_state other w' = Some (r, w')) ∧
    (group m = g → GroupedSubset_subset_state other w' = Some (r', w')).
Proof.
  intros Hwf HG Hm.
  destruct (wf_group w Hwf other m Hm) as [Go HGo].
  destruct (wf_state w Hwf _ Go HGo) as [c Hc].
  pose proof (paste_run g G other m Go c w HG Hm HGo Hc) as Hrun.
  assert (Hr : subset_state Go < length (states w)) by by eapply lookup_lt_Some.
  assert (Hg : g < length (groups w)) by by eapply lookup_lt_Some.
  eexists _, (subset_state Go), (length (states w)), c.
  split; [by apply (Pointer__get___run subset_state other m Go)|].
  split; [done|]. split; [exact Hrun|]. simpl.
  split; [lia|]. split; [by apply list_lookup_middle|].
  split; [by apply lookup_app_l_Some|]. split.
  { intros s Hs. destruct (wf_subsets w Hwf g G s HG Hs) as (ms & Hms & Hgs).
    split.
    - apply (Pointer__get___run subset_state s ms
               (mkSubsetGroup (subsets G) (length (states w)) (label G) (_style G)));
        [done|]. simpl. rewrite Hgs. by apply list_lookup_insert_eq.
    - apply (Pointer__get___run label s ms
               (mkSubsetGroup (subsets G) (length (states w)) (label G) (_style G)));
        [done|]. simpl. rewrite Hgs. by apply list_lookup_insert_eq. }
  split.
  - intros Hne. apply (Pointer__get___run subset_state other m Go); [done|].
    simpl. by rewrite list_lookup_insert_ne.
  - intros Heq.
    apply (Pointer__get___run subset_state other m
             (mkSubsetGroup (subsets G) (length (states w)) (label G) (_style G)));
      [done|]. simpl. rewrite Heq. by apply list_lookup_insert_eq.
Qed.

Lemma paste_is_read_by_every_member_witness :
  wf world_two_groups ∧ groups world_two_groups !! 1
    = Some (mkSubsetGroup [2] 0 (Some "B") (Some 1)) ∧
  members world_two_groups !! 0 = Some (mkGroupedSubset 10 0 (Some 7)) ∧
  ∃ w',
    SubsetGroup_paste 1 0 world_two_groups = Some (tt, w') ∧
    GroupedSubset_subset_state 2 w' = Some (1, w') ∧
    states w' !! 1 = Some "x > 3" ∧
    GroupedSubset_subset_state 0 w' = Some (0, w').
Proof.
  split; [exact wf_world_two_groups|]. split; [reflexivity|]. split; [reflexivity|].
  destruct (paste_is_read_by_every_member world_two_groups 1
              (mkSubsetGroup [2] 0 (Some "B") (Some 1)) 0
              (mkGroupedSubset 10 0 (Some 7)) wf_world_two_groups eq_refl eq_refl)
    as (w' & r & r' & c & Hr & Hc & Hrun & _ & Hst & _ & Hall & Hother & _).
  exists w'. split; [exact Hrun|].
  pose proof (paste_run 1 (mkSubsetGroup [2] 0 (Some "B") (Some 1)) 0
                (mkGroupedSubset 10 0 (Some 7)) group_A "x > 3" world_two_groups
                eq_refl eq_refl eq_refl eq_refl) as Hrun'.
  rewrite Hrun in Hrun'. injection Hrun' as ->.
  vm_compute in Hr. injection Hr as <-.
  split; [|split].
  - vm_compute. reflexivity.
  - reflexivity.
  - apply Hother. simpl. lia.
Defined.

(** ** The member list follows the collection *)

Lemma omap_cons {A B} (f : A → option B) (x : A) (l : list A) :
  omap f (x :: l) = match f x with Some y => y :: omap f l | None => omap f l end.
Proof. done. Qed.

Lemma member_datasets_after_remove (h : list GroupedSubset) (d : Ref) (l : list Ref) :
  omap (λ s, data <$> h !! s) (filter (λ s, ¬ (data <$> h !! s = Some d)) l)
  = filter (λ d', d' ≠ d) (omap (λ s, data <$> h !! s) l).
Proof.
  induction l as [|s l IH]; [done|].
  rewrite filter_cons, (omap_cons _ s l).
  destruct (decide (¬ (data <$> h !! s = Some d))) as [Hnb|Hb].
  - rewrite omap_cons. destruct (data <$> h !! s) as [d'|] eqn:Hs; [|done].
    rewrite filter_cons_True by (intros ->; by apply Hnb). by rewrite IH.
  - apply dec_stable in Hb. rewrite Hb.
    by rewrite filter_cons_False by (intros Hne; by apply Hne).
Qed.

Lemma member_datasets_after_add (h : list GroupedSubset) (m : GroupedSubset) (l : list Ref) :
  Forall (λ s, is_Some (h !! s)) l →
  omap (λ s, data <$> (h ++ [m]) !! s) (l ++ [length h])
  = omap (λ s, data <$> h !! s) l ++ [data m].
Proof.
  intros Hall. rewrite omap_app. f_equal.
  - induction Hall as [|s l [ms Hs] _ IH]; [done|]. rewrite !omap_cons.
    by rewrite (lookup_app_l_Some _ _ _ _ Hs), Hs, IH.
  - rewrite omap_cons. by rewrite list_lookup_middle.
Qed.

Lemma handle_follows_message g G x w :
  wf w → groups w !! g = Some G →
  ∃ w' G',
    SubsetGroup_handle g x w = Some (tt, w') ∧
    groups w' !! g = Some G' ∧
    member_datasets w' G' = datasets_after (member_datasets w G) x ∧
    label G' = label G ∧ subset_state G' = subset_state G ∧ _style G' = _style G ∧
    wf w'.
Proof.
  intros Hwf HG.
  pose proof (wf_subsets_allocated w g G Hwf HG) as Hall.
  assert (Hg : g < length (groups w)) by by eapply lookup_lt_Some.
  destruct x as [[] d]; unfold SubsetGroup_handle, datasets_after; simpl.
  - pose proof (add_data_run g G d w HG (wf_style w Hwf g G HG)) as Hrun.
    eexists _, _. split; [exact Hrun|]. simpl.
    split; [by apply list_lookup_insert_eq|].
    split; [by apply (member_datasets_after_add _ (mkGroupedSubset d g None))|].
    do 3 (split; [done|]). by eapply keeps_wf_add_data.
  - pose proof (remove_data_run g G d w HG Hall) as Hrun.
    eexists _, _. split; [exact Hrun|]. simpl.
    split; [by apply list_lookup_insert_eq|].
    split; [by apply member_datasets_after_remove|].
    do 3 (split; [done|]). by eapply keeps_wf_remove_data.
Qed.

(** X14. The member list follows the collection.  Handling a sequence of
    dataset-added and dataset-removed messages succeeds, and the datasets
    of the listed members, in list order, are then what the messages make of
    the datasets before: each added dataset at the end, each removed one
    gone.  Label, selection state and style of the group are unchanged. *)
Theorem handlers_follow_the_collection (xs : list Message) (w : World) (g : Ref) (G : SubsetGroup) :
  wf w →
  groups w !! g = Some G →
  ∃ w' G',
    handle_all g xs w = Some (tt, w') ∧
    groups w' !! g = Some G' ∧
    member_datasets w' G' = foldl datasets_after (member_datasets w G) xs ∧
    label G' = label G ∧ subset_state G' = subset_state G ∧ _style G' = _style G ∧
    wf w'.
Proof.
  revert w G. induction xs as [|x xs IH]; intros w G Hwf HG.
  - exists w, G. split; [done|]. by do 5 (split; [done|]).
  - destruct (handle_follows_message g G x w Hwf HG)
      as (w1 & G1 & Hrun1 & HG1 & Hds1 & Hl1 & Hs1 & Hv1 & Hwf1).
    destruct (IH w1 G1 Hwf1 HG1) as (w' & G' & Hrun & HG' & Hds & Hl & Hs & Hv & Hwf').
    exists w', G'. unfold handle_all in *. simpl.
    rewrite (bind_run _ _ _ _ _ Hrun1).
    split; [exact Hrun|]. split; [done|].
    split; [by rewrite Hds, Hds1|].
    split; [congruence|]. split; [congruence|]. split; [congruence|done].
Qed.

Lemma handlers_follow_the_collection_witness :
  wf world_A ∧ groups world_A !! 0 = Some group_A ∧
  ∃ w' G',
    handle_all 0 [mkMessage DataCollectionAddMessage 12;
                  mkMessage DataCollectionDeleteMessage 10;
                  mkMessage DataCollectionAddMessage 10] world_A = Some (tt, w') ∧
    groups w' !! 0 = Some G' ∧
    member_datasets w' G' = [11; 12; 10].
Proof.
  split; [exact wf_world_A|]. split; [reflexivity|].
  destruct (handlers_follow_the_collection
              [mkMessage DataCollectionAddMessage 12;
               mkMessage DataCollectionDeleteMessage 10;
               mkMessage DataCollectionAddMessage 10]
              world_A 0 group_A wf_world_A eq_refl)
    as (w' & G' & Hrun & HG' & Hds & _).
  exists w', G'. split; [exact Hrun|]. split; [exact HG'|].
  rewrite Hds. reflexivity.
Defined.

(** ** The verbose label *)

Lemma string_length_app (a b : string) :
  String.length (a +:+ b) = String.length a + String.length b.
Proof. induction a as [|x a IH]; simpl; [done|]. by rewrite IH. Qed.

Lemma string_app_inj_r (a b c : string) : a +:+ c = b +:+ c → a = b.
Proof.
  revert b. induction a as [|x a IH]; intros [|y b] Heq; simpl in *.
  - done.
  - apply (f_equal String.length) in Heq.
    rewrite ?string_length_app in Heq. simpl in Heq.
    rewrite ?string_length_app in Heq. lia.
  - apply (f_equal String.length) in Heq.
    rewrite ?string_length_app in Heq. simpl in Heq.
    rewrite ?string_length_app in Heq. lia.
  - injection Heq as -> Heq. f_equal. by apply IH.
Qed.

Lemma verbose_label_run data_label s m G w :
  members w !! s = Some m → groups w !! group m = Some G →
  GroupedSubset_verbose_label data_label s w =
    Some (py_str (label G) +:+ " (" +:+ py_str (data_label (data m)) +:+ ")", w).
Proof.
  intros Hm HG. unfold GroupedSubset_verbose_label, GroupedSubset_label.
  rewrite (bind_run _ _ _ _ _ (Pointer__get___run label s m G w Hm HG)).
  by rewrite (bind_run _ _ _ _ _ (get_member_run _ _ _ Hm)).
Qed.

(** X15. [verbose_label] is the label of the group followed by the label
    of the member's dataset in parentheses.  So after the group's label is
    assigned, the verbose label of every listed member starts with the new
    label, and two listed members have the same verbose label exactly when
    the labels of their datasets print the same. *)
Theorem verbose_label_follows_group_label (data_label : Ref → option string) (w : World) (g : Ref) (G : SubsetGroup) (lbl : option string) :
  wf w →
  groups w !! g = Some G →
  ∃ w',
    SubsetGroup__setattr__ g (Set_label lbl) w = Some (tt, w') ∧
    ∀ s m, s ∈ subsets G → members w !! s = Some m →
      GroupedSubset_verbose_label data_label s w'
        = Some (py_str lbl +:+ " (" +:+ py_str (data_label (data m)) +:+ ")", w') ∧
      ∀ s' m' v v', s' ∈ subsets G → members w !! s' = Some m' →
        GroupedSubset_verbose_label data_label s w' = Some (v, w') →
        GroupedSubset_verbose_label data_label s' w' = Some (v', w') →
        (v = v' ↔ py_str (data_label (data m)) = py_str (data_label (data m'))).
Proof.
  intros Hwf HG. eexists. split; [by apply setattr_label_run|].
  set (G' := mkSubsetGroup (subsets G) (subset_state G) lbl (_style G)).
  set (w' := mkWorld (<[g := G']> (groups w)) (members w) (states w) (styles w)
                     (trace w ++ fan_out (ItemAttr "label") (subsets G))).
  assert (Hread : ∀ s m, s ∈ subsets G → members w !! s = Some m →
            GroupedSubset_verbose_label data_label s w'
            = Some (py_str lbl +:+ " (" +:+ py_str (data_label (data m)) +:+ ")", w')).
  { intros s m Hs Hm. destruct (wf_subsets w Hwf g G s HG Hs) as (m0 & Hm0 & Hg0).
    rewrite Hm in Hm0. injection Hm0 as <-.
    apply (verbose_label_run data_label s m G'); [done|].
    simpl. rewrite Hg0. apply list_lookup_insert_eq. by eapply lookup_lt_Some. }
  intros s m Hs Hm. split; [by apply Hread|].
  intros s' m' v v' Hs' Hm' Hv Hv'.
  rewrite (Hread s m Hs Hm) in Hv. rewrite (Hread s' m' Hs' Hm') in Hv'.
  injection Hv as <-. injection Hv' as <-. split.
  - intros Heq. apply (inj (String.app (py_str lbl))) in Heq.
    apply (inj (String.app " (")) in Heq. by apply string_app_inj_r in Heq.
  - by intros ->.
Qed.

Lemma verbose_label_follows_group_label_witness :
  wf world_A ∧ groups world_A !! 0 = Some group_A ∧
  ∃ w',
    SubsetGroup__setattr__ 0 (Set_label (Some "B")) world_A = Some (tt, w') ∧
    GroupedSubset_verbose_label (λ d, if d =? 10 then Some "image" else None) 0 w'
      = Some ("B (image)", w') ∧
    GroupedSubset_verbose_label (λ d, if d =? 10 then Some "image" else None) 1 w'
      = Some ("B (None)", w').
Proof.
  split; [exact wf_world_A|]. split; [reflexivity|].
  destruct (verbose_label_follows_group_label
              (λ d, if d =? 10 then Some "image" else None)
              world_A 0 group_A (Some "B") wf_world_A eq_refl)
    as (w' & Hrun & Hall).
  exists w'. split; [exact Hrun|]. split.
  - exact (proj1 (Hall 0 (mkGroupedSubset 10 0 (Some 7)) ltac:(by left) eq_refl)).
  - exact (proj1 (Hall 1 (mkGroupedSubset 11 0 None)
                    ltac:(right; by left) eq_refl)).
Defined.

(** ** No operation raises in a well-formed world *)

Lemma VisualAttributes__setattr___run v V w :
  styles w !! v = Some V →
  VisualAttributes__setattr__ v w =
    match parent V with
    | Some g => SubsetGroup_broadcast g (ItemStyle v) w
    | None => Some (tt, w)
    end.
Proof.
  intros HV. unfold VisualAttributes__setattr__, get_style_object.
  rewrite (bind_run _ _ _ V w); [|unfold lift; by rewrite HV].
  by destruct (parent V).
Qed.

(** X16. In a well-formed world every client operation on objects that
    exist runs to its end: creating a member never finds a group without
    style, [list.remove] in [_remove_data] never misses its element, and no
    attribute is read from an object that is not there.  The world it
    leaves is well-formed again. *)
Theorem client_operations_complete (w : World) (μ : Mutation) :
  wf w →
  client w μ →
  names_objects w μ →
  ∃ w', mutate μ w = Some (tt, w') ∧ wf w'.
Proof.
  intros Hwf Hclient Hnames.
  assert (Hrun : ∃ w', mutate μ w = Some (tt, w')).
  { destruct μ as [lbl|c|p|g a|g other|g dc|g x|g item|v|r c|s v|s|s v|s v];
      simpl in *.
    - rewrite (bind_run _ _ _ _ _ (SubsetGroup__init___run lbl w)). by eexists.
    - by eexists.
    - by eexists.
    - destruct Hnames as [G HG].
      destruct a as [l|r|lbl|v|o]; simpl in Hclient; try done.
      + eexists. by apply setattr_subset_state_run.
      + eexists. by apply setattr_label_run.
      + destruct (setattr_style_run g G v w HG (wf_subsets_allocated w g G Hwf HG))
          as (pre & Hrun & _). by eexists.
    - destruct Hnames as [[G HG] [m Hm]].
      destruct (wf_group w Hwf other m Hm) as [Go HGo].
      destruct (wf_state w Hwf _ Go HGo) as [c Hc].
      eexists. by apply (paste_run g G other m Go c).
    - destruct Hnames as [G HG]. eexists.
      apply (register_run g G dc w HG). by eapply wf_style.
    - destruct Hnames as [G HG]. destruct x as [[] d]; unfold SubsetGroup_handle; simpl.
      + eexists. apply (add_data_run g G d w HG). by eapply wf_style.
      + eexists. apply (remove_data_run g G d w HG).
        by apply (wf_subsets_allocated w g G).
    - destruct Hnames as [G HG]. destruct item as [name|v].
      + eexists. by apply broadcast_attr_run.
      + destruct (clear_overrides_run g G w HG (wf_subsets_allocated w g G Hwf HG))
          as (pre & Hrun & _). by eexists.
    - destruct Hnames as (V & HV & Hp).
      rewrite (VisualAttributes__setattr___run v V w HV).
      destruct (parent V) as [g|] eqn:Hpar; [|by eexists].
      destruct (Hp g eq_refl) as [G HG].
      destruct (clear_overrides_run g G w HG (wf_subsets_allocated w g G Hwf HG))
        as (pre & Hrun & _). by eexists.
    - by eexists.
    - destruct Hnames as [m Hm]. eexists. by apply GroupedSubset_set_style_run.
    - destruct Hnames as [m Hm]. eexists. by apply clear_override_style_run.
    - destruct Hnames as [m Hm]. destruct (wf_group w Hwf s m Hm) as [G HG].
      eexists. by apply (set_label_run s m G).
    - destruct Hnames as [m Hm]. destruct (wf_group w Hwf s m Hm) as [G HG].
      eexists. by apply (set_subset_state_run s m G). }
  destruct Hrun as [w' Hrun]. exists w'. split; [done|]. by eapply wf_mutate.
Qed.

Lemma client_operations_complete_witness :
  wf world_A ∧
  client world_A (Handle 0 (mkMessage DataCollectionDeleteMessage 10)) ∧
  names_objects world_A (Handle 0 (mkMessage DataCollectionDeleteMessage 10)) ∧
  ∃ w', mutate (Handle 0 (mkMessage DataCollectionDeleteMessage 10)) world_A
          = Some (tt, w') ∧ wf w'.
Proof.
  split; [exact wf_world_A|]. split; [exact I|].
  split; [by exists group_A|].
  apply (client_operations_complete world_A
           (Handle 0 (mkMessage DataCollectionDeleteMessage 10)) wf_world_A I).
  by exists group_A.
Defined.
